(** * IcyLister2: the ICY metadata reader of [icylister2.py]

    A shallow embedding of the class [IcyLister2]: the header scan of
    [__init__], [close], the tag/value scanner [parse_icy_metadata], one
    framing cycle [get_metadata_once] and the polling loop
    [get_next_metadata]; and of one turn of the loop of [_pretty_print].

    Conventions.
    - A Python [str] is the list of its code points ([list N]); a [bytes]
      object is a [list byte]; a [dict] from [str] to [str] is a
      [gmap (list N) (list N)], whose equality is Python's [==] on dicts.
    - Response headers come out of [http.client] decoded as ISO-8859-1, so a
      header name or value is a string of 8-bit characters: Rocq's [string].
    - A raised exception is a value of [exn]; a method of the reader is a
      function from the object's state to an outcome and the state it
      leaves behind (an exception does not roll the stream back). *)

From Stdlib Require Import ZArith NArith List Bool Lia.
From Stdlib.Strings Require Import String Ascii Byte.
From stdpp Require Import base option list gmap.

Local Open Scope Z_scope.

(** ** Exceptions and outcomes *)

Inductive exn : Type :=
  | RuntimeError        (* raised by __init__ when no header matched *)
  | ValueError          (* int() on a string that is no integer literal *)
  | AttributeError      (* attribute access on None *)
  | IndexError          (* string index out of range *)
  | UnicodeDecodeError. (* bytes.decode on a byte the codec leaves undefined *)

Inductive result (A : Type) : Type :=
  | Ok (a : A)
  | Raise (e : exn).
Arguments Ok {A} a.
Arguments Raise {A} e.

#[export] Instance result_ret : MRet result := fun A a => Ok a.
#[export] Instance result_bind : MBind result := fun A B k m =>
  match m with
  | Ok a => k a
  | Raise e => Raise e
  end.

Definition raises {A} (m : result A) : Prop := exists e, m = Raise e.

(** ** Python strings, bytes and dicts *)

Abbreviation pystr := (list N) (only parsing).
Abbreviation pybytes := (list byte) (only parsing).
Abbreviation pydict := (gmap (list N) (list N)) (only parsing).

(** The [str] literal written in the source or a test. *)
Definition str (s : string) : pystr := map N_of_ascii (list_ascii_of_string s).

(** The [bytes] literal [b"..."]. *)
Definition bytes_lit (s : string) : pybytes := list_byte_of_string s.

(** A one-character literal. *)
Definition chr (a : ascii) : N := N_of_ascii a.
Arguments chr : simpl never.

(** [s[0]] *)
Definition index_first (s : pystr) : result N :=
  match s with
  | [] => Raise IndexError
  | c :: _ => Ok c
  end.

(** [s[-1]] *)
Definition index_last (s : pystr) : result N :=
  match last s with
  | None => Raise IndexError
  | Some c => Ok c
  end.

(** [s[1:-1]]: slicing never raises; on a one-character string it is empty. *)
Definition slice_1_m1 (s : pystr) : pystr := removelast (tail s).

(** ** parse_icy_metadata *)

Module Parser.

(** The four locals of [parse_icy_metadata]. *)
Record locals : Type := Locals {
  metadata : pydict;
  current_tag : pystr;
  current_value : pystr;
  reading_tag : bool
}.

Definition initial : locals :=
  {| metadata := ∅; current_tag := []; current_value := []; reading_tag := true |}.

(** The test [current_value[0] == "'" and current_value[-1] == "'"], with
    the short circuit of [and]. *)
Definition quoted (v : pystr) : result bool :=
  c0 ← index_first v;
  if (c0 =? chr "'")%N then
    c1 ← index_last v; mret (c1 =? chr "'")%N
  else mret false.

(** The body of [for char in data_string]. *)
Definition loop_body (l : locals) (char : N) : result locals :=
  if reading_tag l then
    if (char =? chr "=")%N then
      mret {| metadata := metadata l; current_tag := current_tag l;
              current_value := current_value l; reading_tag := false |}
    else
      mret {| metadata := metadata l; current_tag := current_tag l ++ [char];
              current_value := current_value l; reading_tag := true |}
  else
    if (char =? chr ";")%N then
      q ← quoted (current_value l);
      let value := if q : bool then slice_1_m1 (current_value l)
                   else current_value l in
      mret {| metadata := <[current_tag l := value]> (metadata l);
              current_tag := []; current_value := []; reading_tag := true |}
    else
      mret {| metadata := metadata l; current_tag := current_tag l;
              current_value := current_value l ++ [char]; reading_tag := false |}.

(** The [for] loop from the locals [l] over what is left of the string. *)
Fixpoint for_loop (l : locals) (data_string : pystr) : result locals :=
  match data_string with
  | [] => mret l
  | char :: rest => l' ← loop_body l char; for_loop l' rest
  end.

Definition parse_icy_metadata (data_string : pystr) : result pydict :=
  l ← for_loop initial data_string; mret (metadata l).

End Parser.

Import Parser.

(** ** The Windows-1252 codec

    [bytes.decode("Windows-1252")] resolves to CPython's [cp1252] charmap
    codec with the default [errors="strict"].  Its decoding table maps
    0x00-0x7F and 0xA0-0xFF to the code point of the same number, 27 of the
    bytes 0x80-0x9F to the code points below, and leaves 0x81, 0x8D, 0x8F,
    0x90 and 0x9D undefined: decoding one of them raises
    [UnicodeDecodeError]. *)

Definition decoding_table (b : byte) : option N :=
  let n := Byte.to_N b in
  if (n <? 0x80)%N then Some n
  else if (0xA0 <=? n)%N then Some n
  else match n with
       | 0x80 => Some 0x20AC | 0x82 => Some 0x201A | 0x83 => Some 0x0192
       | 0x84 => Some 0x201E | 0x85 => Some 0x2026 | 0x86 => Some 0x2020
       | 0x87 => Some 0x2021 | 0x88 => Some 0x02C6 | 0x89 => Some 0x2030
       | 0x8A => Some 0x0160 | 0x8B => Some 0x2039 | 0x8C => Some 0x0152
       | 0x8E => Some 0x017D
       | 0x91 => Some 0x2018 | 0x92 => Some 0x2019 | 0x93 => Some 0x201C
       | 0x94 => Some 0x201D | 0x95 => Some 0x2022 | 0x96 => Some 0x2013
       | 0x97 => Some 0x2014 | 0x98 => Some 0x02DC | 0x99 => Some 0x2122
       | 0x9A => Some 0x0161 | 0x9B => Some 0x203A | 0x9C => Some 0x0153
       | 0x9E => Some 0x017E | 0x9F => Some 0x0178
       | _ => None
       end%N.

(** [data.decode("Windows-1252")] *)
Fixpoint decode (data : pybytes) : result pystr :=
  match data with
  | [] => mret []
  | b :: data' =>
      match decoding_table b with
      | None => Raise UnicodeDecodeError
      | Some c => text ← decode data'; mret (c :: text)
      end
  end.

(** The five bytes without a code point. *)
Definition undefined_byte (b : byte) : bool :=
  match b with
  | x81 | x8d | x8f | x90 | x9d => true
  | _ => false
  end.

(** [data.replace(b"\x00", b"")] *)
Definition replace_nul (data : pybytes) : pybytes :=
  List.filter (fun b => negb (Byte.eqb b x00)) data.

(** [int.from_bytes(data, 'big')] *)
Definition int_from_bytes (data : pybytes) : Z :=
  fold_left (fun acc b => acc * 256 + Z.of_N (Byte.to_N b)) data 0.

(** ** The response body as a stream

    The body of an [HTTPResponse] that is sent neither chunked nor with a
    [Content-Length], as a stream server sends it (in [http.client]:
    [chunked] false, [length] None): what is still to come of it, the
    arguments of the [read] calls made so far (a ghost trace, oldest first),
    and whether the response still holds its file [fp].  A finite [pending]
    is a body that ends there by a regular close of the connection; at that
    end a read returns fewer bytes than asked for, and no exception.  A
    chunked body that is cut off makes [read] raise [IncompleteRead]
    instead; such bodies, and amounts too large to allocate, are outside
    this model. *)

Record stream : Type := Stream {
  pending : pybytes;
  requests : list (option Z);
  fp_open : bool
}.

(** [if not s and amt: self._close_conn()]: the file is given up when a read
    for a non-zero amount comes back empty. *)
Definition still_open (data : pybytes) (amt : Z) : bool :=
  match data with
  | [] => amt =? 0
  | _ :: _ => true
  end.

(** [HTTPResponse.read(amt)].  Without its file the response returns
    [b""].  Otherwise [amt] goes to [BufferedReader.read]: up to [amt]
    bytes when [amt] is not negative, fewer only at the end of the body;
    everything that is left for [-1]; a [ValueError] for any other negative
    amount.  [read(None)] reads everything and gives up the file. *)
Definition read (amt : option Z) (s : stream) : result pybytes * stream :=
  let trace := requests s ++ [amt] in
  if fp_open s then
    match amt with
    | None =>
        (Ok (pending s), {| pending := []; requests := trace; fp_open := false |})
    | Some a =>
        if a <? -1 then
          (Raise ValueError,
           {| pending := pending s; requests := trace; fp_open := true |})
        else
          let n := if a =? -1 then length (pending s) else Z.to_nat a in
          let data := take n (pending s) in
          (Ok data, {| pending := drop n (pending s); requests := trace;
                       fp_open := still_open data a |})
    end
  else (Ok [], {| pending := pending s; requests := trace; fp_open := false |}).

(** ** The reader object *)

Record IcyLister2 : Type := Reader {
  _stream : option stream;
  _meta_interval : option Z
}.

(** A method: from the object to an outcome and the object afterwards. *)
Definition method (A : Type) : Type := IcyLister2 → result A * IcyLister2.

#[export] Instance method_ret : MRet method := fun A a self => (Ok a, self).
#[export] Instance method_bind : MBind method := fun A B k m self =>
  match m self with
  | (Ok a, self') => k a self'
  | (Raise e, self') => (Raise e, self')
  end.

(** An outcome computed without touching the object. *)
Definition lift {A} (m : result A) : method A := fun self => (m, self).

(** [self._meta_interval] *)
Definition get_meta_interval : method (option Z) :=
  fun self => (Ok (_meta_interval self), self).

(** [self._stream.read(amt)]: on [None] the attribute lookup fails. *)
Definition stream_read (amt : option Z) : method pybytes := fun self =>
  match _stream self with
  | None => (Raise AttributeError, self)
  | Some s =>
      let '(data, s') := read amt s in
      (data, {| _stream := Some s'; _meta_interval := _meta_interval self |})
  end.

(** [close]: [self._stream.close()], then both fields are set to [None]. *)
Definition close : method unit := fun self =>
  match _stream self with
  | None => (Raise AttributeError, self)
  | Some _ => (Ok (), {| _stream := None; _meta_interval := None |})
  end.

Section Cycle.

(** [self.parse_icy_metadata], looked up on the object at the call. *)
Variable parse : pystr → result pydict.

(** [get_metadata_once]; [None] is the value of a call that falls off the
    end of the body. *)
Definition get_metadata_once_with : method (option pydict) :=
  interval ← get_meta_interval;
  _ ← stream_read interval;
  length_byte ← stream_read (Some 1);
  let meta_len := int_from_bytes length_byte * 16 in
  if 0 <? meta_len then
    meta_data ← stream_read (Some meta_len);
    text ← lift (decode (replace_nul meta_data));
    parsed ← lift (parse text);
    mret (Some parsed)
  else mret None.

(** What [get_metadata_once] makes of a block once it has been read: strip
    the NULs, decode, parse. *)
Definition decoded_block (block : pybytes) : result (option pydict) :=
  text ← decode (replace_nul block); parsed ← parse text; mret (Some parsed).

(** [get_next_metadata]: the [while result is None] loop, cut off after
    [fuel] turns; [None] is "still looping". *)
Fixpoint get_next_metadata_with (fuel : nat) (self : IcyLister2)
  : option (result pydict * IcyLister2) :=
  match fuel with
  | O => None
  | S fuel' =>
      match get_metadata_once_with self with
      | (Raise e, self') => Some (Raise e, self')
      | (Ok None, self') => get_next_metadata_with fuel' self'
      | (Ok (Some result), self') => Some (Ok result, self')
      end
  end.

End Cycle.

Definition get_metadata_once : method (option pydict) :=
  get_metadata_once_with parse_icy_metadata.

Definition get_next_metadata : nat → IcyLister2 → option (result pydict * IcyLister2) :=
  get_next_metadata_with parse_icy_metadata.

(** ** Construction: the scan of the response headers *)

(** [str.lower] on one ISO-8859-1 character: A-Z and the capital letters
    0xC0-0xDE (but not the multiplication sign 0xD7) move up by 32. *)
Definition lower_char (a : ascii) : ascii :=
  let n := N_of_ascii a in
  if andb (0x41 <=? n)%N (n <=? 0x5A)%N then ascii_of_N (n + 32)
  else if andb (andb (0xC0 <=? n)%N (n <=? 0xDE)%N) (negb (n =? 0xD7)%N)
       then ascii_of_N (n + 32)
  else a.

Fixpoint lower (s : string) : string :=
  match s with
  | EmptyString => EmptyString
  | String a s' => String (lower_char a) (lower s')
  end.

(** White space for [int]: the ASCII blanks and, of the other ISO-8859-1
    characters, NEL (0x85) and the no-break space (0xA0). *)
Definition is_space (a : ascii) : bool :=
  let n := N_of_ascii a in
  orb (andb (9 <=? n)%N (n <=? 13)%N)
      (orb (n =? 32)%N (orb (n =? 0x85)%N (n =? 0xA0)%N)).

Definition digit (a : ascii) : option Z :=
  let n := N_of_ascii a in
  if andb (48 <=? n)%N (n <=? 57)%N then Some (Z.of_N n - 48) else None.

Fixpoint skip_spaces (s : list ascii) : list ascii :=
  match s with
  | a :: s' => if is_space a then skip_spaces s' else s
  | [] => []
  end.

(** The digits after the first one; a single underscore may stand between
    two digits. *)
Fixpoint more_digits (acc : Z) (s : list ascii) : Z * list ascii :=
  match s with
  | [] => (acc, [])
  | a :: s' =>
      match digit a with
      | Some d => more_digits (acc * 10 + d) s'
      | None =>
          if Ascii.eqb a "_" then
            match s' with
            | b :: s'' =>
                match digit b with
                | Some d => more_digits (acc * 10 + d) s''
                | None => (acc, s)
                end
            | [] => (acc, s)
            end
          else (acc, s)
      end
  end.

(** The builtin [int(value)] on a [str], base 10: blanks, an optional sign,
    decimal digits, blanks; anything else is a [ValueError].  (The digit
    count limit of recent interpreters is not modelled.) *)
Definition py_int (value : string) : result Z :=
  let s := skip_spaces (list_ascii_of_string value) in
  let '(negative, s) :=
    match s with
    | "-"%char :: s' => (true, s')
    | "+"%char :: s' => (false, s')
    | _ => (false, s)
    end in
  match s with
  | [] => Raise ValueError
  | a :: s' =>
      match digit a with
      | None => Raise ValueError
      | Some d =>
          let '(n, rest) := more_digits d s' in
          match skip_spaces rest with
          | [] => Ok (if negative : bool then - n else n)
          | _ :: _ => Raise ValueError
          end
      end
  end.

(** What [urlopen] hands back: the header list of [getheaders()], in
    response order, and the body. *)
Record response : Type := Response {
  getheaders : list (string * string);
  body : pybytes
}.

Definition is_metaint (header : string) : bool :=
  String.eqb (lower header) "icy-metaint".

(** [for header, value in self._stream.getheaders()]; the local
    [meta_interval] is unbound ([None]) until a header has matched. *)
Fixpoint for_headers (meta_interval : option Z) (headers : list (string * string))
  : result (option Z) :=
  match headers with
  | [] => mret meta_interval
  | (header, value) :: headers' =>
      if is_metaint header then
        n ← py_int value; for_headers (Some n) headers'
      else for_headers meta_interval headers'
  end.

(** [__init__], from the response on: the [NameError] of an unbound
    [meta_interval] becomes the [RuntimeError]. *)
Definition __init__ (resp : response) : result IcyLister2 :=
  bound ← for_headers None (getheaders resp);
  match bound with
  | None => Raise RuntimeError
  | Some meta_interval =>
      mret {| _stream := Some {| pending := body resp; requests := [];
                                 fp_open := true |};
              _meta_interval := Some meta_interval |}
  end.

(** The headers of a response whose name matches. *)
Definition metaint_values (headers : list (string * string)) : list string :=
  map snd (List.filter (fun hv => is_metaint (fst hv)) headers).

(** ** The scanner as a machine

    One configuration per point of control of [parse_icy_metadata]: in the
    loop with the characters still to visit, returned, or stopped by an
    exception.  [step] runs the loop body on the next character, or leaves
    the loop when none is left. *)






(** ** Derived notions used in the statements *)

(** The code point of a byte that has one. *)
Definition code_point (b : byte) : N := default 0%N (decoding_table b).

(** The reader after [k] calls of [get_metadata_once] that all returned
    [None]; undefined when one of them did not. *)
Fixpoint sentinels (k : nat) (self : IcyLister2) : option IcyLister2 :=
  match k with
  | O => Some self
  | S k' =>
      match get_metadata_once self with
      | (Ok None, self') => sentinels k' self'
      | _ => None
      end
  end.

(** A reader on the bytes [data], with the trace [trace], whose response
    holds its file or not. *)
Definition reader_at (open : bool) (data : pybytes) (trace : list (option Z))
    (interval : Z) : IcyLister2 :=
  {| _stream := Some {| pending := data; requests := trace; fp_open := open |};
     _meta_interval := Some interval |}.

(** An open reader on the bytes [data], with the trace [trace]. *)
Definition reader (data : pybytes) (trace : list (option Z)) (interval : Z)
  : IcyLister2 :=
  reader_at true data trace interval.

(** A reader whose response has met the end of its body. *)
Definition ended_reader (trace : list (option Z)) (interval : Z) : IcyLister2 :=
  reader_at false [] trace interval.

(** The number written by a list of decimal digits. *)
Definition decimal_value (ds : list ascii) : Z :=
  fold_left (fun acc a => acc * 10 + default 0 (digit a)) ds 0.

(** ** One turn of [_pretty_print]

    The body of the [while True] loop between the call of
    [get_next_metadata] and the call of [printer_func]. *)

(** [key, value = field]: a [str] unpacks into its characters, and into
    two names only when it has exactly two of them. *)
Definition unpack_pair (field : pystr) : result (pystr * pystr) :=
  match field with
  | [a; b] => Ok ([a], [b])
  | _ => Raise ValueError
  end.

(** [for key, value in metadata: if key in filter_fields: result[key] = value].
    Iterating over a dict gives its keys; [fields] is that sequence. *)
Fixpoint filter_loop (filter_fields : list pystr) (selected : pydict)
    (fields : list pystr) : result pydict :=
  match fields with
  | [] => mret selected
  | field :: fields' =>
      '(key, value) ← unpack_pair field;
      filter_loop filter_fields
        (if bool_decide (key ∈ filter_fields) then <[key := value]> selected
         else selected)
        fields'
  end.

(** The dict handed to [printer_func]: [metadata] has its keys in the
    order [fields], and [now] is [str(datetime.now())]. *)
Definition pretty_print_turn (metadata : pydict) (fields : list pystr)
    (with_timestamp : bool) (filter_fields : option (list pystr)) (now : pystr)
  : result pydict :=
  selected ← match filter_fields with
             | None => mret metadata
             | Some wanted =>
                 if (length wanted =? 0)%nat then mret metadata
                 else filter_loop wanted ∅ fields
             end;
  mret (if with_timestamp : bool then <[str "_timestamp" := now]> selected
        else selected).

(** ** Blocks and bodies as the server writes them *)

(** [tag=raw;] *)
Definition pair_text (tag raw : pystr) : pystr :=
  tag ++ chr "=" :: raw ++ [chr ";"].

(** The pairs of a block, one behind the other. *)
Definition block_text (items : list (pystr * pystr)) : pystr :=
  concat (map (λ item, pair_text item.1 item.2) items).

(** A value between two quotes. *)
Definition in_quotes (value : pystr) : pystr := chr "'" :: value ++ [chr "'"].

(** The assignments [metadata[tag] = value], in order, onto [md]. *)
Definition store_all (items : list (pystr * pystr)) (md : pydict) : pydict :=
  fold_left (λ m item, <[item.1 := item.2]> m) items md.

(** What the scanner stores for the raw text of a value that is not
    empty. *)
Definition stored_value (raw : pystr) : pystr :=
  match quoted raw with
  | Ok true => slice_1_m1 raw
  | _ => raw
  end.

(** Cycles without metadata: each audio stretch and a zero length byte. *)
Definition sentinel_cycles (audios : list (list byte)) : pybytes :=
  concat (map (λ audio, audio ++ [x00]) audios).

(** The requests that [k] such cycles leave in the trace. *)
Definition sentinel_requests (k : nat) (interval : Z) : list (option Z) :=
  concat (replicate k [Some interval; Some 1]).

(** Folding the letters A-Z only. *)
Definition ascii_fold_char (a : ascii) : ascii :=
  let n := N_of_ascii a in
  if andb (0x41 <=? n)%N (n <=? 0x5A)%N then ascii_of_N (n + 32) else a.

Fixpoint ascii_fold (s : string) : string :=
  match s with
  | EmptyString => EmptyString
  | String a s' => String (ascii_fold_char a) (ascii_fold s')
  end.

(** The locals of the scanner hold tags made of [Ptag] characters and
    values made of [Pvalue] characters only. *)
Definition locals_inv (Ptag Pvalue : N → Prop) (l : locals) : Prop :=
  Forall Ptag (current_tag l) ∧ Forall Pvalue (current_value l)
  ∧ map_Forall (λ k v, Forall Ptag k ∧ Forall Pvalue v) (metadata l).

(** The decoding table read backwards: the byte of a code point. *)
Definition encoding_table (c : N) : option byte :=
  if (c <? 0x100)%N then
    if andb (0x80 <=? c)%N (c <? 0xA0)%N then None else Byte.of_N c
  else match c with
       | 0x20AC => Some x80 | 0x201A => Some x82 | 0x0192 => Some x83
       | 0x201E => Some x84 | 0x2026 => Some x85 | 0x2020 => Some x86
       | 0x2021 => Some x87 | 0x02C6 => Some x88 | 0x2030 => Some x89
       | 0x0160 => Some x8a | 0x2039 => Some x8b | 0x0152 => Some x8c
       | 0x017D => Some x8e
       | 0x2018 => Some x91 | 0x2019 => Some x92 | 0x201C => Some x93
       | 0x201D => Some x94 | 0x2022 => Some x95 | 0x2013 => Some x96
       | 0x2014 => Some x97 | 0x02DC => Some x98 | 0x2122 => Some x99
       | 0x0161 => Some x9a | 0x203A => Some x9b | 0x0153 => Some x9c
       | 0x017E => Some x9e | 0x0178 => Some x9f
       | _ => None
       end%N.

(** * Properties *)

(** ** The scanner *)

Section ParserFacts.

Implicit Types (l : locals) (s t v tag : pystr) (md : pydict).

Lemma for_loop_app l s t :
  for_loop l (s ++ t) = l' ← for_loop l s; for_loop l' t.
Proof.
  revert l. induction s as [|c s IH]; intros l; simpl; [reflexivity|].
  destruct (loop_body l c) as [l'|e]; simpl; [apply IH | reflexivity].
Qed.

(** Characters other than [=] pile up in the tag. *)
Lemma for_loop_tag md tag v t :
  chr "=" ∉ t →
  for_loop (Locals md tag v true) t = Ok (Locals md (tag ++ t) v true).
Proof.
  revert tag. induction t as [|c t IH]; intros tag Hno; simpl.
  - by rewrite app_nil_r.
  - apply not_elem_of_cons in Hno as [Hc Ht].
    unfold loop_body; simpl.
    destruct (N.eqb_spec c (chr "=")) as [->|_]; [done|]. simpl.
    rewrite IH by done. by rewrite <- app_assoc.
Qed.

(** Characters other than [;] pile up in the value. *)
Lemma for_loop_value md tag v t :
  chr ";" ∉ t →
  for_loop (Locals md tag v false) t = Ok (Locals md tag (v ++ t) false).
Proof.
  revert v. induction t as [|c t IH]; intros v Hno; simpl.
  - by rewrite app_nil_r.
  - apply not_elem_of_cons in Hno as [Hc Ht].
    unfold loop_body; simpl.
    destruct (N.eqb_spec c (chr ";")) as [->|_]; [done|]. simpl.
    rewrite IH by done. by rewrite <- app_assoc.
Qed.

(** Without a [;] nothing is stored and nothing is raised. *)
Lemma for_loop_no_semicolon l t :
  chr ";" ∉ t → ∃ l', for_loop l t = Ok l' ∧ metadata l' = metadata l.
Proof.
  revert l. induction t as [|c t IH]; intros l Hno; simpl.
  - by exists l.
  - apply not_elem_of_cons in Hno as [Hc Ht].
    destruct l as [md tag v rt]. unfold loop_body; simpl.
    destruct rt.
    + destruct (c =? chr "=")%N; simpl.
      * exact (IH (Locals md tag v false) Ht).
      * exact (IH (Locals md (tag ++ [c]) v true) Ht).
    + destruct (N.eqb_spec c (chr ";")) as [->|_]; [done|]. simpl.
      exact (IH (Locals md tag (v ++ [c]) false) Ht).
Qed.

(** The store made at a [;]. *)
Lemma loop_body_semicolon md tag v q :
  quoted v = Ok q →
  loop_body (Locals md tag v false) (chr ";")
  = Ok (Locals (<[tag := if q then slice_1_m1 v else v]> md) [] [] true).
Proof. intros Hq. unfold loop_body; simpl. by rewrite Hq. Qed.

Lemma quoted_empty : quoted [] = Raise IndexError.
Proof. reflexivity. Qed.

Lemma quoted_nonempty v : v ≠ [] → ∃ q, quoted v = Ok q.
Proof.
  destruct v as [|c v]; [done|]. intros _. unfold quoted; simpl.
  destruct (c =? chr "'")%N; simpl; [|by eexists].
  unfold index_last. destruct (last (c :: v)) as [c1|] eqn:Hl; simpl.
  - by eexists.
  - by apply last_None in Hl.
Qed.

(** A value wrapped in two quotes loses exactly those two. *)
Lemma quoted_wrapped v :
  quoted (chr "'" :: v ++ [chr "'"]) = Ok true
  ∧ slice_1_m1 (chr "'" :: v ++ [chr "'"]) = v.
Proof.
  split.
  - unfold quoted, index_last; simpl.
    change (chr "'" :: v ++ [chr "'"]) with ([chr "'"] ++ v ++ [chr "'"]).
    by rewrite app_assoc, last_snoc.
  - unfold slice_1_m1; simpl. apply removelast_last.
Qed.

(** A value of two characters or more that does not both start and end
    with a quote is left as it is. *)
Lemma quoted_unwrapped c v c' :
  c ≠ chr "'" ∨ c' ≠ chr "'" → quoted (c :: v ++ [c']) = Ok false.
Proof.
  intros H. unfold quoted, index_last; simpl.
  destruct (N.eqb_spec c (chr "'")) as [->|Hc]; simpl; [|done].
  change (chr "'" :: v ++ [c']) with ([chr "'"] ++ v ++ [c']).
  rewrite app_assoc, last_snoc; simpl.
  destruct (N.eqb_spec c' (chr "'")) as [->|Hc']; [|done].
  by destruct H.
Qed.

Lemma quoted_single c : c ≠ chr "'" → quoted [c] = Ok false.
Proof.
  intros Hc. unfold quoted; simpl. by destruct (N.eqb_spec c (chr "'")).
Qed.

End ParserFacts.

Example parse_empty : parse_icy_metadata (str "") = Ok ∅.
Proof. reflexivity. Qed.

Example parse_stream_title :
  parse_icy_metadata (str "StreamTitle='Artist - Song';")
  = Ok {[ str "StreamTitle" := str "Artist - Song" ]}.
Proof. reflexivity. Qed.

Example parse_two_pairs :
  parse_icy_metadata (str "a=1;b=2;")
  = Ok (<[ str "b" := str "2" ]> {[ str "a" := str "1" ]}).
Proof. reflexivity. Qed.

Example parse_duplicate_tag :
  parse_icy_metadata (str "a=1;a='2';") = Ok {[ str "a" := str "2" ]}.
Proof. reflexivity. Qed.

Example parse_mismatched_quote :
  parse_icy_metadata (str "a='1;b=2';") 
  = Ok (<[ str "b" := str "2'" ]> {[ str "a" := str "'1" ]}).
Proof. reflexivity. Qed.











(** C7: the first [;] met while a value is read ends that value, whatever
    quotes the value holds; a tail without any [;] is dropped without an
    error; and [parse("x='a;b';")] is exactly [{"x": "'a"}], with no key
    for the dangling [b']. *)
Theorem first_semicolon_terminates md tag v q rest s t :
  chr "=" ∉ tag → chr ";" ∉ v → quoted v = Ok q → chr ";" ∉ t →
  for_loop (Locals md [] [] true) (tag ++ chr "=" :: v ++ chr ";" :: rest)
  = for_loop (Locals (<[tag := if q then slice_1_m1 v else v]> md) [] [] true) rest
  ∧ parse_icy_metadata (s ++ t) = parse_icy_metadata s
  ∧ parse_icy_metadata (str "x='a;b';") = Ok {[ str "x" := str "'a" ]}.
Proof.
  intros Htag Hv Hq Ht. split; [|split].
  - rewrite for_loop_app, for_loop_tag by done. simpl.
    rewrite for_loop_app, for_loop_value by done. simpl.
    by rewrite (loop_body_semicolon _ _ _ q).
  - unfold parse_icy_metadata. rewrite for_loop_app.
    destruct (for_loop initial s) as [l|e]; simpl; [|done].
    destruct (for_loop_no_semicolon l t Ht) as (l' & -> & Hmd). simpl.
    by rewrite Hmd.
  - reflexivity.
Qed.

Lemma first_semicolon_terminates_witness :
  for_loop (Locals ∅ [] [] true)
    (str "x" ++ chr "=" :: str "'a" ++ chr ";" :: str "b';")
  = for_loop (Locals (<[str "x" := str "'a"]> ∅) [] [] true) (str "b';")
  ∧ parse_icy_metadata (str "a=1;" ++ str "b=2") = parse_icy_metadata (str "a=1;")
  ∧ parse_icy_metadata (str "x='a;b';") = Ok {[ str "x" := str "'a" ]}.
Proof.
  apply (first_semicolon_terminates ∅ (str "x") (str "'a") false (str "b';")
           (str "a=1;") (str "b=2")).
  - vm_compute. by repeat (apply not_elem_of_cons; split; [done|]); apply not_elem_of_nil.
  - vm_compute. by repeat (apply not_elem_of_cons; split; [done|]); apply not_elem_of_nil.
  - reflexivity.
  - vm_compute. by repeat (apply not_elem_of_cons; split; [done|]); apply not_elem_of_nil.
Defined.

(** C3 (the code at the inputs where it departs from the claim): a [;]
    after an empty value raises [IndexError] from [current_value[0]], as in
    ["tag=;"]; and a value that is one lone quote is stored as the empty
    string. *)
Theorem empty_value_raises md tag :
  loop_body (Locals md tag [] false) (chr ";") = Raise IndexError
  ∧ parse_icy_metadata (str "tag=;") = Raise IndexError
  ∧ parse_icy_metadata (str "t=';") = Ok {[ str "t" := [] ]}.
Proof. repeat split. Qed.

(** ** The codec *)

Lemma decoding_table_undefined b :
  decoding_table b = if undefined_byte b then None else Some (code_point b).
Proof. by destruct b. Qed.

Lemma undefined_not_nul b : undefined_byte b = true → Byte.eqb b x00 = false.
Proof. by destruct b. Qed.

Lemma decode_map data :
  decode data = if existsb undefined_byte data then Raise UnicodeDecodeError
                else Ok (map code_point data).
Proof.
  induction data as [|b data IH]; simpl; [reflexivity|].
  rewrite decoding_table_undefined.
  destruct (undefined_byte b); simpl; [reflexivity|].
  rewrite IH. by destruct (existsb undefined_byte data).
Qed.

Lemma existsb_replace_nul data :
  existsb undefined_byte (replace_nul data) = existsb undefined_byte data.
Proof.
  induction data as [|b data IH]; simpl; [reflexivity|].
  destruct (Byte.eqb b x00) eqn:Hb; simpl.
  - rewrite IH. destruct (undefined_byte b) eqn:Hu; [|reflexivity].
    apply undefined_not_nul in Hu. congruence.
  - by rewrite IH.
Qed.

Lemma decode_raises data e : decode data = Raise e → e = UnicodeDecodeError.
Proof.
  rewrite decode_map. destruct (existsb _ _); [|done]. by intros [= <-].
Qed.

Lemma int_from_bytes_one b : int_from_bytes [b] = Z.of_N (Byte.to_N b).
Proof. reflexivity. Qed.

Lemma to_N_zero b : Byte.to_N b = 0%N → b = x00.
Proof.
  intros H. pose proof (Byte.of_to_N b) as Hb. rewrite H in Hb.
  by injection Hb.
Qed.

(** ** One cycle *)

Section CycleFacts.

Variable parse : pystr → result pydict.

Implicit Types (data audio block rest : pybytes) (trace : list (option Z)).

(** The three reads of a cycle on a reader that has a stream, written
    out. *)
Lemma get_metadata_once_open (s : stream) (interval : option Z) :
  get_metadata_once_with parse (Reader (Some s) interval)
  = match read interval s with
    | (Raise e, s1) => (Raise e, Reader (Some s1) interval)
    | (Ok _, s1) =>
        match read (Some 1) s1 with
        | (Raise e, s2) => (Raise e, Reader (Some s2) interval)
        | (Ok length_byte, s2) =>
            let meta_len := int_from_bytes length_byte * 16 in
            if 0 <? meta_len then
              match read (Some meta_len) s2 with
              | (Raise e, s3) => (Raise e, Reader (Some s3) interval)
              | (Ok block, s3) =>
                  (decoded_block parse block, Reader (Some s3) interval)
              end
            else (Ok None, Reader (Some s2) interval)
        end
    end.
Proof.
  unfold get_metadata_once_with, decoded_block.
  unfold mbind at 1 2 3, method_bind, get_meta_interval, stream_read. cbn.
  destruct (read interval s) as [[audio|e] s1]; [|reflexivity]. cbn.
  destruct (read (Some 1) s1) as [[length_byte|e] s2]; [|reflexivity]. cbn.
  destruct (0 <? _); [|reflexivity].
  unfold mbind at 1 2 3, method_bind, lift, mret, method_ret. cbn.
  destruct (read _ s2) as [[block|e] s3]; [|reflexivity]. cbn.
  destruct (decode _) as [text|e]; cbn; [|reflexivity].
  by destruct (parse text).
Qed.

(** A read that the body satisfies in full leaves the file open. *)
Lemma read_exact data rest trace (n : Z) :
  Z.of_nat (length data) = n →
  read (Some n) (Stream (data ++ rest) trace true)
  = (Ok data, Stream rest (trace ++ [Some n]) true).
Proof.
  intros <-. unfold read; simpl.
  destruct (Z.ltb_spec (Z.of_nat (length data)) (-1)); [lia|].
  destruct (Z.eqb_spec (Z.of_nat (length data)) (-1)); [lia|].
  rewrite Nat2Z.id, take_app_length, drop_app_length.
  do 3 f_equal. by destruct data.
Qed.

(** A read for more than is left returns what is left. *)
Lemma read_short data trace (n : Z) :
  Z.of_nat (length data) ≤ n →
  read (Some n) (Stream data trace true)
  = (Ok data, Stream [] (trace ++ [Some n]) (still_open data n)).
Proof.
  intros Hn. unfold read; simpl.
  destruct (Z.ltb_spec n (-1)); [lia|].
  destruct (Z.eqb_spec n (-1)); [lia|].
  by rewrite take_ge, drop_ge by lia.
Qed.

(** A read of everything that is left. *)
Lemma read_all data trace (n : Z) :
  Z.of_nat (length data) ≤ n ∨ n = -1 →
  read (Some n) (Stream data trace true)
  = (Ok data, Stream [] (trace ++ [Some n]) (still_open data n)).
Proof.
  intros [Hn| ->]; [by apply read_short|].
  unfold read; simpl. by rewrite take_ge, drop_ge by lia.
Qed.

(** A read after the file has been given up. *)
Lemma read_ended data trace amt :
  read amt (Stream data trace false) = (Ok [], Stream data (trace ++ [amt]) false).
Proof. reflexivity. Qed.

(** At the end of the body a read for one byte gives up the file. *)
Lemma read_one_at_end trace open :
  read (Some 1) (Stream [] trace open) = (Ok [], Stream [] (trace ++ [Some 1]) false).
Proof. by destruct open. Qed.

(** A zero length byte: two reads, no third, [None]. *)
Lemma cycle_zero audio rest trace interval :
  Z.of_nat (length audio) = interval →
  get_metadata_once_with parse (reader (audio ++ x00 :: rest) trace interval)
  = (Ok None, reader rest (trace ++ [Some interval; Some 1]) interval).
Proof.
  intros Ha. unfold reader, reader_at. rewrite get_metadata_once_open.
  rewrite (read_exact audio _ _ interval Ha).
  rewrite (read_exact [x00] rest _ 1 eq_refl).
  rewrite int_from_bytes_one. cbn [Byte.to_N Z.of_N Z.mul Z.ltb Z.compare].
  by rewrite <- app_assoc.
Qed.

(** A positive length byte with its whole block behind it. *)
Lemma cycle_block audio b block rest trace interval :
  Z.of_nat (length audio) = interval →
  b ≠ x00 →
  Z.of_nat (length block) = Z.of_N (Byte.to_N b) * 16 →
  get_metadata_once_with parse (reader (audio ++ b :: block ++ rest) trace interval)
  = (decoded_block parse block,
     reader rest (trace ++ [Some interval; Some 1; Some (Z.of_N (Byte.to_N b) * 16)])
       interval).
Proof.
  intros Ha Hb Hblock. unfold reader, reader_at. rewrite get_metadata_once_open.
  rewrite (read_exact audio _ _ interval Ha).
  rewrite (read_exact [b] (block ++ rest) _ 1 eq_refl).
  rewrite int_from_bytes_one. cbn zeta.
  destruct (Z.ltb_spec 0 (Z.of_N (Byte.to_N b) * 16)) as [_|Hle].
  - rewrite (read_exact block rest _ _ Hblock).
    by rewrite <- !app_assoc.
  - destruct Hb. apply to_N_zero. lia.
Qed.

(** The body ends inside the audio or before the length byte. *)
Lemma cycle_truncated_audio data trace interval :
  Z.of_nat (length data) ≤ interval →
  get_metadata_once_with parse (reader data trace interval)
  = (Ok None, ended_reader (trace ++ [Some interval; Some 1]) interval).
Proof.
  intros Hd. unfold reader, ended_reader, reader_at. rewrite get_metadata_once_open.
  rewrite (read_short data _ interval Hd), read_one_at_end.
  cbn [int_from_bytes fold_left Z.mul Z.ltb Z.compare].
  by rewrite <- app_assoc.
Qed.

(** The body ends inside the block. *)
Lemma cycle_truncated_block audio b block trace interval :
  Z.of_nat (length audio) = interval →
  b ≠ x00 →
  Z.of_nat (length block) < Z.of_N (Byte.to_N b) * 16 →
  get_metadata_once_with parse (reader (audio ++ b :: block) trace interval)
  = (decoded_block parse block,
     reader_at (still_open block (Z.of_N (Byte.to_N b) * 16)) []
       (trace ++ [Some interval; Some 1; Some (Z.of_N (Byte.to_N b) * 16)])
       interval).
Proof.
  intros Ha Hb Hblock. unfold reader, reader_at. rewrite get_metadata_once_open.
  rewrite (read_exact audio _ _ interval Ha).
  rewrite (read_exact [b] block _ 1 eq_refl).
  rewrite int_from_bytes_one. cbn zeta.
  destruct (Z.ltb_spec 0 (Z.of_N (Byte.to_N b) * 16)) as [_|Hle].
  - rewrite (read_short block _ _) by lia.
    by rewrite <- !app_assoc.
  - destruct Hb. apply to_N_zero. lia.
Qed.

End CycleFacts.

Lemma quoted_raises v e : quoted v = Raise e → e = IndexError.
Proof.
  unfold quoted, index_first, index_last.
  destruct v as [|c v]; simpl; [by intros [= <-]|].
  destruct (c =? chr "'")%N; simpl; [|done].
  destruct (last (c :: v)); simpl; [done | by intros [= <-]].
Qed.

Lemma for_loop_raises s : ∀ l e, for_loop l s = Raise e → e = IndexError.
Proof.
  induction s as [|c s IH]; intros l e; simpl; [done|].
  destruct (loop_body l c) as [l'|e'] eqn:Hb; simpl.
  - apply IH.
  - intros [= <-]. revert Hb. unfold loop_body.
    destruct (reading_tag l).
    + by destruct (c =? chr "=")%N.
    + destruct (c =? chr ";")%N; [|done].
      destruct (quoted (current_value l)) as [q|e''] eqn:Hq; simpl; [done|].
      intros [= <-]. by apply quoted_raises in Hq.
Qed.

Lemma parse_icy_metadata_raises s e :
  parse_icy_metadata s = Raise e → e = IndexError.
Proof.
  unfold parse_icy_metadata.
  destruct (for_loop initial s) as [l|e'] eqn:Hl; simpl; [done|].
  intros [= <-]. by apply for_loop_raises in Hl.
Qed.

Lemma decoded_block_raises block e :
  decoded_block parse_icy_metadata block = Raise e →
  e = UnicodeDecodeError ∨ e = IndexError.
Proof.
  unfold decoded_block.
  destruct (decode (replace_nul block)) as [text|e'] eqn:Hd; simpl.
  - destruct (parse_icy_metadata text) as [d|e'] eqn:Hp; simpl; [done|].
    intros [= <-]. right. by apply parse_icy_metadata_raises in Hp.
  - intros [= <-]. left. by apply decode_raises in Hd.
Qed.

(** C8 (as the code has it): when the length byte is 0 the call makes its
    two reads and no third, leaves the stream right behind the length byte
    and returns [None], whatever the parser is (so it is not called).  When
    the length byte [b] is positive and its [16 * b] bytes follow, exactly
    those bytes are read; if none of them is one of the five bytes without a
    code point, the NULs are dropped, the rest is decoded and the call
    returns the dict that the parser makes of that text; if one of them is,
    the call raises [UnicodeDecodeError] with the block already read.  With
    an interval of 8: eight audio bytes and a zero byte give [None]; eight
    audio bytes, the byte 1 and ["a='x';"] padded with ten NULs give
    [{"a": "x"}], and so does a block with a NUL in the middle of the
    value. *)
Theorem zero_length_is_sentinel parse audio b block rest trace interval :
  Z.of_nat (length audio) = interval →
  b ≠ x00 →
  Z.of_nat (length block) = Z.of_N (Byte.to_N b) * 16 →
  let self := reader (audio ++ b :: block ++ rest) trace interval in
  let self' := reader rest
                 (trace ++ [Some interval; Some 1; Some (Z.of_N (Byte.to_N b) * 16)])
                 interval in
  get_metadata_once_with parse (reader (audio ++ x00 :: rest) trace interval)
  = (Ok None, reader rest (trace ++ [Some interval; Some 1]) interval)
  ∧ (∀ d, existsb undefined_byte block = false →
          parse (map code_point (replace_nul block)) = Ok d →
          get_metadata_once_with parse self = (Ok (Some d), self'))
  ∧ (existsb undefined_byte block = true →
       get_metadata_once_with parse self = (Raise UnicodeDecodeError, self'))
  ∧ get_metadata_once (reader (bytes_lit "12345678" ++ [x00]) [] 8)
    = (Ok None, reader [] [Some 8; Some 1] 8)
  ∧ get_metadata_once
      (reader (bytes_lit "12345678" ++ x01 :: bytes_lit "a='x';" ++ repeat x00 10) [] 8)
    = (Ok (Some {[ str "a" := str "x" ]}), reader [] [Some 8; Some 1; Some 16] 8)
  ∧ get_metadata_once
      (reader (bytes_lit "12345678" ++ x01 :: bytes_lit "a='x" ++ x00 :: bytes_lit "y';"
               ++ repeat x00 8) [] 8)
    = (Ok (Some {[ str "a" := str "xy" ]}), reader [] [Some 8; Some 1; Some 16] 8).
Proof.
  intros Ha Hb Hblock self self'. split; [|split; [|split; [|split; [|split]]]].
  - by apply cycle_zero.
  - intros d Hdef Hd. unfold self, self'. rewrite cycle_block by done.
    unfold decoded_block. by rewrite decode_map, existsb_replace_nul, Hdef; simpl; rewrite Hd.
  - intros Hundef. unfold self, self'. rewrite cycle_block by done.
    unfold decoded_block. by rewrite decode_map, existsb_replace_nul, Hundef.
  - reflexivity.
  - reflexivity.
  - reflexivity.
Qed.

Lemma zero_length_is_sentinel_witness :
  get_metadata_once (reader (bytes_lit "mp3!" ++ x00 :: bytes_lit "next") [] 4)
  = (Ok None, reader (bytes_lit "next") [Some 4; Some 1] 4)
  ∧ get_metadata_once
      (reader (bytes_lit "mp3!" ++ x01 :: (bytes_lit "t='s';" ++ repeat x00 10)
               ++ bytes_lit "next") [] 4)
    = (Ok (Some {[ str "t" := str "s" ]}),
       reader (bytes_lit "next") [Some 4; Some 1; Some 16] 4).
Proof.
  destruct (zero_length_is_sentinel parse_icy_metadata (bytes_lit "mp3!") x01
              (bytes_lit "t='s';" ++ repeat x00 10) (bytes_lit "next") [] 4)
    as (H0 & H1 & _); [reflexivity | discriminate | reflexivity |].
  split; [exact H0 | apply H1; reflexivity].
Defined.

(** C8, against the claim: a cycle with the length byte 1 whose block holds
    the byte 0x90 reads its sixteen bytes and then raises; no dict is
    returned. *)
Lemma undefined_byte_block_raises :
  get_metadata_once
    (reader (bytes_lit "12345678" ++ x01 :: x90 :: bytes_lit "a='x';" ++ repeat x00 9) [] 8)
  = (Raise UnicodeDecodeError, reader [] [Some 8; Some 1; Some 16] 8).
Proof. reflexivity. Qed.

(** C1 (as the code has it): no step of a cycle looks at how many bytes a
    read returned.  The body is one that ends by a regular close of the
    connection, so that a read at its end returns what is left and raises
    nothing, and the interval is not negative.  When the body ends within
    the audio, or right behind it, the call returns [None]; when it ends
    within the block, the bytes that did arrive are stripped, decoded and
    parsed like a whole block. *)
Theorem short_reads_go_unnoticed data audio b block trace interval :
  Z.of_nat (length data) ≤ interval →
  Z.of_nat (length audio) = interval →
  b ≠ x00 →
  Z.of_nat (length block) < Z.of_N (Byte.to_N b) * 16 →
  get_metadata_once (reader data trace interval)
  = (Ok None, ended_reader (trace ++ [Some interval; Some 1]) interval)
  ∧ get_metadata_once (reader (audio ++ b :: block) trace interval)
    = (decoded_block parse_icy_metadata block,
       reader_at (still_open block (Z.of_N (Byte.to_N b) * 16)) []
         (trace ++ [Some interval; Some 1; Some (Z.of_N (Byte.to_N b) * 16)])
         interval).
Proof.
  intros Hd Ha Hb Hblock. split.
  - by apply cycle_truncated_audio.
  - by apply cycle_truncated_block.
Qed.

Lemma short_reads_go_unnoticed_witness :
  get_metadata_once (reader (bytes_lit "abc") [] 8)
  = (Ok None, ended_reader [Some 8; Some 1] 8)
  ∧ get_metadata_once (reader (bytes_lit "12345678" ++ x01 :: bytes_lit "a='x';") [] 8)
    = (Ok (Some {[ str "a" := str "x" ]}), reader [] [Some 8; Some 1; Some 16] 8).
Proof.
  destruct (short_reads_go_unnoticed (bytes_lit "abc") (bytes_lit "12345678") x01
              (bytes_lit "a='x';") [] 8)
    as (H0 & H1); [simpl; lia | reflexivity | discriminate | simpl; lia |].
  split; [exact H0 | exact H1].
Defined.

(** C1, against the claim: with an interval of 8, a body of three bytes
    ends in the middle of the audio, and the call returns [None] instead of
    raising. *)
Lemma truncated_audio_returns_None :
  get_metadata_once (reader (bytes_lit "abc") [] 8)
  = (Ok None, ended_reader [Some 8; Some 1] 8)
  ∧ ¬ raises (get_metadata_once (reader (bytes_lit "abc") [] 8)).1.
Proof. split; [reflexivity | by intros [e He]]. Qed.

(** C2 (as the code has it): stripping the NULs and decoding succeeds
    exactly on the blocks that hold none of the five bytes 0x81, 0x8D,
    0x8F, 0x90, 0x9D, and then gives one code point per byte that is left;
    on a block that holds one of them it raises [UnicodeDecodeError]. *)
Theorem decode_defined_bytes (data : pybytes) :
  decode (replace_nul data)
  = if existsb undefined_byte data then Raise UnicodeDecodeError
    else Ok (map code_point (replace_nul data)).
Proof. by rewrite decode_map, existsb_replace_nul. Qed.

(** C2, against the claim: the byte 0x81 has no code point, so a block that
    holds it makes the decoding step, and with it the whole cycle, raise. *)
Lemma decode_x81_raises :
  decode (replace_nul [x81]) = Raise UnicodeDecodeError
  ∧ (get_metadata_once (reader (bytes_lit "12345678" ++ x01 :: x81 :: repeat x00 15) [] 8)).1
    = Raise UnicodeDecodeError.
Proof. split; reflexivity. Qed.

(** ** The polling loop *)

Lemma get_next_metadata_sentinels k : ∀ fuel self self_k,
  sentinels k self = Some self_k →
  get_next_metadata (k + fuel) self = get_next_metadata fuel self_k.
Proof.
  induction k as [|k IH]; intros fuel self self_k; simpl.
  - by intros [= ->].
  - unfold get_next_metadata; simpl. fold get_metadata_once.
    destruct (get_metadata_once self) as [[[d|]|e] self1]; try done.
    apply IH.
Qed.

(** C4 (as the code has it): [get_next_metadata] returns the dict [d]
    exactly when some number of calls of [get_metadata_once] returned
    [None] and the next one returned [d]; given that, every bound on the
    turns greater than that number yields [d].  The dict is whatever that
    cycle parsed, the empty one included. *)
Theorem get_next_metadata_first_block fuel self d self' :
  get_next_metadata fuel self = Some (Ok d, self')
  ↔ ∃ k self_k, (k < fuel)%nat
      ∧ sentinels k self = Some self_k
      ∧ get_metadata_once self_k = (Ok (Some d), self').
Proof.
  split.
  - revert self. induction fuel as [|fuel IH]; intros self; [done|].
    unfold get_next_metadata; simpl. fold get_metadata_once.
    destruct (get_metadata_once self) as [[[d1|]|e] self1] eqn:Hc.
    + intros [= -> ->]. exists 0%nat, self. split; [lia | by split].
    + intros H. apply IH in H as (k & self_k & Hk & Hs & Hd).
      exists (S k), self_k. split; [lia|]. split; [|done].
      simpl. by rewrite Hc.
    + done.
  - intros (k & self_k & Hk & Hs & Hd).
    replace fuel with (k + S (fuel - S k))%nat by lia.
    rewrite (get_next_metadata_sentinels k _ self self_k Hs).
    unfold get_next_metadata; simpl. fold get_metadata_once. by rewrite Hd.
Qed.

(** C4, against the claim: a block of ["abc"] and NULs holds no finished
    pair; it parses to the empty dict, which is not [None], so the loop
    stops and returns it. *)
Lemma get_next_metadata_returns_empty :
  get_next_metadata 1
    (reader (bytes_lit "12345678" ++ x01 :: bytes_lit "abc" ++ repeat x00 13) [] 8)
  = Some (Ok ∅, reader [] [Some 8; Some 1; Some 16] 8).
Proof. reflexivity. Qed.

(** ** After close *)

(** C6 (as the code has it): after [close], on whatever reader it was
    called, every call of [get_metadata_once] raises and leaves the reader
    as it is, and so does [get_next_metadata] on its first turn, whatever
    the bound on its turns.  What is raised is the [AttributeError] of
    [self._stream] being [None]; the class has no error of its own for a
    closed reader. *)
Theorem closed_reader_raises (self : IcyLister2) (fuel : nat) :
  get_metadata_once (close self).2 = (Raise AttributeError, (close self).2)
  ∧ get_next_metadata (S fuel) (close self).2
    = Some (Raise AttributeError, (close self).2).
Proof.
  unfold close. destruct self as [[s|] interval]; simpl; split; reflexivity.
Qed.

(** C6, against the claim: the exception that a closed reader raises is
    [AttributeError] and nothing else, where the claim names an error for
    the invalid state. *)
Lemma closed_reader_raises_AttributeError :
  (get_metadata_once (close (reader (bytes_lit "12345678") [] 8)).2).1
  = Raise AttributeError
  ∧ ∀ e, (get_metadata_once (close (reader (bytes_lit "12345678") [] 8)).2).1 = Raise e →
         e = AttributeError.
Proof. split; [reflexivity | by intros e [= <-]]. Qed.

(** ** Construction *)

Example lower_mixed_case : lower "Icy-MetaInt" = "icy-metaint"%string.
Proof. reflexivity. Qed.

Example py_int_samples :
  py_int "8192" = Ok 8192 ∧ py_int " +16 " = Ok 16 ∧ py_int "-16" = Ok (-16)
  ∧ py_int "007" = Ok 7 ∧ py_int "1_000" = Ok 1000
  ∧ py_int "" = Raise ValueError ∧ py_int "abc" = Raise ValueError
  ∧ py_int "8.0" = Raise ValueError ∧ py_int "1__0" = Raise ValueError
  ∧ py_int "- 1" = Raise ValueError ∧ py_int "0x10" = Raise ValueError.
Proof. repeat split. Qed.

Lemma digit_plain a :
  is_Some (digit a) → is_space a = false ∧ a ≠ "-"%char ∧ a ≠ "+"%char.
Proof.
  destruct a as [[] [] [] [] [] [] [] []]; vm_compute;
    intros [d Hd]; try discriminate; by repeat split.
Qed.

Lemma more_digits_all ds : ∀ acc,
  Forall (λ a, is_Some (digit a)) ds →
  more_digits acc ds
  = (fold_left (λ acc a, acc * 10 + default 0 (digit a)) ds acc, []).
Proof.
  induction ds as [|a ds IH]; intros acc Hds; [reflexivity|].
  apply Forall_cons in Hds as [[d Hd] Hds]. simpl. rewrite Hd. simpl.
  by apply IH.
Qed.

(** [int] accepts every run of decimal digits, with or without a minus
    sign in front. *)
Lemma py_int_decimal d ds :
  Forall (λ a, is_Some (digit a)) (d :: ds) →
  py_int (string_of_list_ascii (d :: ds)) = Ok (decimal_value (d :: ds))
  ∧ py_int (string_of_list_ascii ("-"%char :: d :: ds))
    = Ok (- decimal_value (d :: ds)).
Proof.
  intros Hds. pose proof Hds as Hall.
  apply Forall_cons in Hds as [Hd Hds].
  destruct (digit_plain d Hd) as (Hsp & Hm & Hp).
  destruct Hd as [n Hn].
  unfold py_int. rewrite !list_ascii_of_string_of_list_ascii.
  split.
  - cbn [skip_spaces]. rewrite Hsp.
    assert (match d with
            | "-"%char => (true, ds)
            | "+"%char => (false, ds)
            | _ => (false, d :: ds)
            end = (false, d :: ds)) as ->.
    { destruct d as [[] [] [] [] [] [] [] []]; try reflexivity; congruence. }
    rewrite Hn, (more_digits_all ds) by done. cbn [skip_spaces].
    unfold decimal_value. simpl. by rewrite Hn.
  - assert (skip_spaces ("-"%char :: d :: ds) = "-"%char :: d :: ds) as ->
      by reflexivity.
    cbn iota beta.
    rewrite Hn, (more_digits_all ds) by done. cbn [skip_spaces].
    unfold decimal_value. simpl. by rewrite Hn.
Qed.

Lemma py_int_raises value e : py_int value = Raise e → e = ValueError.
Proof.
  unfold py_int.
  destruct (match skip_spaces (list_ascii_of_string value) with
            | [] => (false, skip_spaces (list_ascii_of_string value))
            | a :: s' => _
            end) as [negative s].
  destruct s as [|a s]; [by intros [= <-]|].
  destruct (digit a) as [d|]; [|by intros [= <-]].
  destruct (more_digits d s) as [n rest].
  destruct (skip_spaces rest); [done | by intros [= <-]].
Qed.

Lemma metaint_values_app hs1 hs2 :
  metaint_values (hs1 ++ hs2) = metaint_values hs1 ++ metaint_values hs2.
Proof. unfold metaint_values. by rewrite List.filter_app, map_app. Qed.

Lemma metaint_values_cons header value headers :
  metaint_values ((header, value) :: headers)
  = if is_metaint header then value :: metaint_values headers
    else metaint_values headers.
Proof. unfold metaint_values; simpl. by destruct (is_metaint header). Qed.

(** The loop converts every matching value, in order, and keeps the last. *)
Lemma for_headers_last headers : ∀ meta_interval,
  for_headers meta_interval headers
  = ns ← mapM py_int (metaint_values headers);
    mret (match last ns with Some n => Some n | None => meta_interval end).
Proof.
  induction headers as [|[header value] headers IH]; intros mi; [reflexivity|].
  rewrite metaint_values_cons. simpl for_headers.
  destruct (is_metaint header); [|apply IH].
  simpl mapM. destruct (py_int value) as [n|e]; simpl; [|reflexivity].
  rewrite IH.
  destruct (mapM py_int (metaint_values headers)) as [ns|e]; simpl; [|reflexivity].
  rewrite last_cons. by destruct (last ns).
Qed.

Lemma init_last headers body :
  __init__ (Response headers body)
  = ns ← mapM py_int (metaint_values headers);
    match last ns with
    | None => Raise RuntimeError
    | Some n => Ok (reader body [] n)
    end.
Proof.
  unfold __init__; simpl. rewrite for_headers_last.
  destruct (mapM py_int (metaint_values headers)) as [ns|e]; simpl; [|reflexivity].
  by destruct (last ns).
Qed.

(** C5 (as the code has it): with one interval header in the response, the
    value is handed to [int] and is not checked any further.  Every value
    that [int] accepts is stored as it is, be it positive, zero or negative;
    a value that [int] rejects makes construction raise the [ValueError] of
    [int]. *)
Theorem interval_is_stored_unchecked before header value after body :
  is_metaint header = true →
  metaint_values before = [] →
  metaint_values after = [] →
  (∀ n, py_int value = Ok n →
     __init__ (Response (before ++ (header, value) :: after) body)
     = Ok (reader body [] n))
  ∧ (∀ e, py_int value = Raise e →
       e = ValueError
       ∧ __init__ (Response (before ++ (header, value) :: after) body)
         = Raise ValueError).
Proof.
  intros Hh Hb Ha.
  assert (metaint_values (before ++ (header, value) :: after) = [value]) as Hv.
  { by rewrite metaint_values_app, Hb, metaint_values_cons, Hh, Ha. }
  split.
  - intros n Hn. rewrite init_last, Hv. simpl. by rewrite Hn.
  - intros e He. pose proof (py_int_raises _ _ He) as ->. split; [done|].
    rewrite init_last, Hv. simpl. by rewrite He.
Qed.

Lemma interval_is_stored_unchecked_witness :
  __init__ (Response [("Content-Type", "audio/mpeg"); ("icy-metaint", "-16");
                      ("icy-br", "128")]%string [])
  = Ok (reader [] [] (-16)).
Proof.
  destruct (interval_is_stored_unchecked
              [("Content-Type", "audio/mpeg")]%string "icy-metaint" "-16"
              [("icy-br", "128")]%string [])
    as [Hok _]; [reflexivity | reflexivity | reflexivity |].
  apply Hok. reflexivity.
Defined.

(** C5, against the claim: the values ["0"] and ["-16"] are integers that
    are not positive, and construction succeeds and stores them. *)
Lemma nonpositive_interval_accepted :
  __init__ (Response [("icy-metaint", "0")]%string []) = Ok (reader [] [] 0)
  ∧ __init__ (Response [("icy-metaint", "-16")]%string []) = Ok (reader [] [] (-16)).
Proof. split; reflexivity. Qed.

(** C9 (as the code has it): construction converts the value of every
    matching header with [int], in response order, and stores the last of
    the numbers.  It raises the [ValueError] of the first value that [int]
    rejects, and the [RuntimeError] when no header matches. *)
Theorem last_interval_header_wins headers body :
  __init__ (Response headers body)
  = ns ← mapM py_int (metaint_values headers);
    match last ns with
    | None => Raise RuntimeError
    | Some n => Ok (reader body [] n)
    end.
Proof. apply init_last. Qed.

(** C9, against the claim: an earlier interval header is not skipped; when
    its value is no integer, construction raises although the last one is
    fine.  (With two integers the last one is stored.) *)
Lemma earlier_interval_header_raises :
  __init__ (Response [("icy-metaint", "abc"); ("Icy-MetaInt", "8")]%string [])
  = Raise ValueError
  ∧ __init__ (Response [("icy-metaint", "4"); ("Icy-MetaInt", "8")]%string [])
    = Ok (reader [] [] 8).
Proof. split; reflexivity. Qed.

(** * Further properties *)

(** ** The scanner on well-formed and on arbitrary text *)

Section ScannerInvariant.

(** What holds of every tag character and of every value character. *)
Variables (Ptag Pvalue : N → Prop).

Local Abbreviation locals_inv := (locals_inv Ptag Pvalue).

Lemma Forall_slice_1_m1 (v : list N) : Forall Pvalue v → Forall Pvalue (slice_1_m1 v).
Proof.
  intros Hv. unfold slice_1_m1. destruct v as [|c v]; simpl; [done|].
  apply Forall_cons in Hv as [_ Hv].
  destruct (decide (v = [])) as [->|Hne]; [done|].
  destruct (exists_last Hne) as (v' & c' & ->).
  rewrite removelast_last. by apply Forall_app in Hv as [Hv _].
Qed.

Lemma loop_body_inv l c l' :
  (c ≠ chr "=" → Ptag c) → (c ≠ chr ";" → Pvalue c) →
  locals_inv l → loop_body l c = Ok l' → locals_inv l'.
Proof.
  intros Ht Hv (Htag & Hval & Hmd). unfold loop_body.
  destruct (reading_tag l).
  - destruct (N.eqb_spec c (chr "=")) as [->|Hc]; intros [= <-]; simpl.
    + done.
    + split; [|done]. apply Forall_app. split; [done|]. by repeat constructor; auto.
  - destruct (N.eqb_spec c (chr ";")) as [->|Hc].
    + destruct (quoted (current_value l)) as [q|e]; simpl; [|done].
      intros [= <-]; simpl. split; [done|]. split; [done|].
      apply map_Forall_insert_2; [|done]. split; [done|].
      destruct q; [by apply Forall_slice_1_m1 | done].
    + intros [= <-]; simpl. split; [done|]. split; [|done].
      apply Forall_app. split; [done|]. by repeat constructor; auto.
Qed.

Lemma for_loop_inv s : ∀ l l',
  Forall (λ c, (c ≠ chr "=" → Ptag c) ∧ (c ≠ chr ";" → Pvalue c)) s →
  locals_inv l → for_loop l s = Ok l' → locals_inv l'.
Proof.
  induction s as [|c s IH]; intros l l' Hs Hl; simpl.
  - by intros [= <-].
  - apply Forall_cons in Hs as [[Ht Hv] Hs].
    destruct (loop_body l c) as [l1|e] eqn:Hb; simpl; [|done].
    apply IH; [done|]. by apply (loop_body_inv l c).
Qed.

Lemma parse_icy_metadata_inv s d :
  Forall (λ c, (c ≠ chr "=" → Ptag c) ∧ (c ≠ chr ";" → Pvalue c)) s →
  parse_icy_metadata s = Ok d →
  map_Forall (λ k v, Forall Ptag k ∧ Forall Pvalue v) d.
Proof.
  intros Hs. unfold parse_icy_metadata.
  destruct (for_loop initial s) as [l|e] eqn:Hl; simpl; [|done].
  intros [= <-]. eapply for_loop_inv in Hl as (_ & _ & Hmd); [done | done |].
  split; [done|]. split; [done|]. apply map_Forall_empty.
Qed.

End ScannerInvariant.

(** X1: in whatever [parse_icy_metadata] returns, no tag holds a [=] and
    no value holds a [;], and every character of a tag or a value is a
    character of the text that was parsed. *)
Theorem parsed_characters (s : pystr) (d : pydict) (k v : pystr) :
  parse_icy_metadata s = Ok d → d !! k = Some v →
  (chr "=" ∉ k) ∧ (chr ";" ∉ v) ∧ k ⊆ s ∧ v ⊆ s.
Proof.
  intros Hp Hk.
  pose proof (parse_icy_metadata_inv (λ c, c ≠ chr "=") (λ c, c ≠ chr ";") s d) as H1.
  pose proof (parse_icy_metadata_inv (λ c, c ∈ s) (λ c, c ∈ s) s d) as H2.
  destruct (H1 (proj2 (Forall_forall _ _) (λ c _, conj (λ H, H) (λ H, H))) Hp k v Hk)
    as [Hk1 Hv1].
  destruct (H2 (proj2 (Forall_forall _ _) (λ c Hc, conj (λ _, Hc) (λ _, Hc))) Hp k v Hk)
    as [Hk2 Hv2].
  rewrite Forall_forall in Hk1, Hv1, Hk2, Hv2.
  split; [|split; [|split]].
  - intros Hin. by apply (Hk1 _ Hin).
  - intros Hin. by apply (Hv1 _ Hin).
  - intros c Hc. by apply Hk2.
  - intros c Hc. by apply Hv2.
Qed.

Lemma parsed_characters_witness :
  (chr "=" ∉ str "a") ∧ (chr ";" ∉ str "x")
  ∧ str "a" ⊆ str "a='x';" ∧ str "x" ⊆ str "a='x';".
Proof.
  apply (parsed_characters (str "a='x';") {[ str "a" := str "x" ]} (str "a") (str "x")).
  - reflexivity.
  - reflexivity.
Defined.

Lemma stored_value_quoted raw q :
  quoted raw = Ok q → (if q then slice_1_m1 raw else raw) = stored_value raw.
Proof. intros Hq. unfold stored_value. rewrite Hq. by destruct q. Qed.

Lemma stored_value_in_quotes value : stored_value (in_quotes value) = value.
Proof.
  unfold stored_value, in_quotes.
  by destruct (quoted_wrapped value) as [-> ->].
Qed.

Lemma stored_value_bare raw :
  head raw ≠ Some (chr "'") ∨ last raw ≠ Some (chr "'") → stored_value raw = raw.
Proof.
  intros H. unfold stored_value, quoted, index_first, index_last.
  destruct raw as [|c raw]; simpl; [done|].
  destruct (N.eqb_spec c (chr "'")) as [->|Hc]; simpl; [|done].
  destruct (last (chr "'" :: raw)) as [c1|] eqn:Hl; simpl; [|done].
  destruct (N.eqb_spec c1 (chr "'")) as [->|Hc1]; [|done].
  by destruct H.
Qed.

(** One pair after the other: each [tag=raw;] makes one assignment. *)
Lemma for_loop_block items : ∀ md rest,
  Forall (λ item, (chr "=" ∉ item.1) ∧ (chr ";" ∉ item.2) ∧ item.2 ≠ []) items →
  for_loop (Locals md [] [] true) (block_text items ++ rest)
  = for_loop
      (Locals (store_all (map (λ item, (item.1, stored_value item.2)) items) md)
         [] [] true)
      rest.
Proof.
  induction items as [|[tag raw] items IH]; intros md rest Hitems; [reflexivity|].
  apply Forall_cons in Hitems as [(Htag & Hraw & Hne) Hitems]. simpl in *.
  unfold block_text; simpl. fold (block_text items).
  unfold pair_text. rewrite <- !app_assoc. simpl. rewrite <- !app_assoc. simpl.
  rewrite for_loop_app, for_loop_tag by done. simpl.
  rewrite for_loop_app, for_loop_value by done. simpl.
  destruct (quoted_nonempty raw Hne) as [q Hq].
  rewrite (loop_body_semicolon _ _ _ q Hq). simpl.
  rewrite (stored_value_quoted raw q Hq). by apply IH.
Qed.

Lemma parse_block items :
  Forall (λ item, (chr "=" ∉ item.1) ∧ (chr ";" ∉ item.2) ∧ item.2 ≠ []) items →
  parse_icy_metadata (block_text items)
  = Ok (store_all (map (λ item, (item.1, stored_value item.2)) items) ∅).
Proof.
  intros Hitems. unfold parse_icy_metadata.
  rewrite <- (app_nil_r (block_text items)).
  unfold initial. by rewrite for_loop_block.
Qed.

(** X2: a block written as [tag='value';] pairs parses back to exactly
    those pairs, a later pair replacing an earlier one with the same tag,
    whenever no tag holds a [=] and no value holds a [;] (quotes inside a
    value, empty values and empty tags are all fine). *)
Theorem quoted_block_round_trip (pairs : list (list N * list N)) :
  Forall (λ pair, (chr "=" ∉ pair.1) ∧ (chr ";" ∉ pair.2)) pairs →
  parse_icy_metadata (block_text (map (λ pair, (pair.1, in_quotes pair.2)) pairs))
  = Ok (store_all pairs ∅).
Proof.
  intros Hpairs. rewrite parse_block.
  - f_equal. f_equal. rewrite map_map.
    rewrite <- (map_id pairs) at 2. apply map_ext. intros [tag value]; simpl.
    by rewrite stored_value_in_quotes.
  - apply Forall_map. eapply Forall_impl; [exact Hpairs|].
    intros [tag value] [Htag Hvalue]; simpl in *. split; [done|]. split; [|done].
    unfold in_quotes. rewrite not_elem_of_cons, not_elem_of_app, not_elem_of_cons.
    repeat split; try done. apply not_elem_of_nil.
Qed.

Lemma quoted_block_round_trip_witness :
  parse_icy_metadata
    (block_text (map (λ pair, (pair.1, in_quotes pair.2))
       [(str "StreamTitle", str "It's = fine"); (str "StreamUrl", str "")]))
  = Ok (store_all [(str "StreamTitle", str "It's = fine"); (str "StreamUrl", str "")] ∅).
Proof.
  apply quoted_block_round_trip.
  repeat (apply Forall_cons; split; [split; vm_compute;
    by repeat (apply not_elem_of_cons; split; [done|]); apply not_elem_of_nil|]).
  apply Forall_nil_2.
Defined.

(** X3: a block written as [tag=value;] pairs without quotes parses back to
    exactly those pairs whenever no tag holds a [=], no value holds a [;]
    and every value is non-empty and does not both start and end with a
    quote. *)
Theorem bare_block_round_trip (pairs : list (list N * list N)) :
  Forall (λ pair, (chr "=" ∉ pair.1) ∧ (chr ";" ∉ pair.2) ∧ pair.2 ≠ []
                  ∧ (head pair.2 ≠ Some (chr "'") ∨ last pair.2 ≠ Some (chr "'")))
    pairs →
  parse_icy_metadata (block_text pairs) = Ok (store_all pairs ∅).
Proof.
  intros Hpairs. rewrite parse_block.
  - f_equal. f_equal. rewrite <- (map_id pairs) at 2. apply map_ext_Forall.
    eapply Forall_impl; [exact Hpairs|].
    intros [tag value] (_ & _ & _ & Hq); simpl in *.
    by rewrite stored_value_bare.
  - eapply Forall_impl; [exact Hpairs|]. by intros [tag value] (? & ? & ? & _).
Qed.

Lemma bare_block_round_trip_witness :
  parse_icy_metadata (block_text [(str "a", str "1"); (str "b", str "'2")])
  = Ok (store_all [(str "a", str "1"); (str "b", str "'2")] ∅).
Proof.
  apply bare_block_round_trip.
  repeat (apply Forall_cons; split;
    [split; [|split; [|split; [done|]]];
     [vm_compute; by repeat (apply not_elem_of_cons; split; [done|]); apply not_elem_of_nil
     |vm_compute; by repeat (apply not_elem_of_cons; split; [done|]); apply not_elem_of_nil
     |by right]|]).
  apply Forall_nil_2.
Defined.

(** The scanner can only stop at a [;] that comes right behind the [=]
    that opened the value. *)
Lemma for_loop_succeeds s : ∀ l,
  (∀ p rest, s ≠ p ++ chr "=" :: chr ";" :: rest) →
  (reading_tag l = false → current_value l = [] → head s ≠ Some (chr ";")) →
  ∃ l', for_loop l s = Ok l'.
Proof.
  induction s as [|c s IH]; intros l Hno Hl; simpl; [by eexists|].
  assert (∀ p rest, s ≠ p ++ chr "=" :: chr ";" :: rest) as Hno'.
  { intros p rest ->. by apply (Hno (c :: p) rest). }
  destruct l as [md tag v rt]. unfold loop_body; simpl in *.
  destruct rt.
  - destruct (N.eqb_spec c (chr "=")) as [->|Hc]; simpl.
    + apply IH; [done|]. simpl. intros _ _ Hs.
      destruct s as [|c' s]; [done|]. simplify_eq/=. by apply (Hno [] s).
    + by apply IH.
  - destruct (N.eqb_spec c (chr ";")) as [->|Hc]; simpl.
    + destruct (quoted_nonempty v) as [q ->]; simpl.
      * intros ->. by apply Hl.
      * by apply IH.
    + apply IH; [done|]. simpl. intros _ Hv. by destruct v.
Qed.

(** X4: a text in which no [=] is directly followed by a [;] is parsed
    without an exception. *)
Theorem parse_succeeds_without_empty_value (s : pystr) :
  (∀ p rest, s ≠ p ++ chr "=" :: chr ";" :: rest) →
  ∃ d, parse_icy_metadata s = Ok d.
Proof.
  intros Hno. unfold parse_icy_metadata.
  destruct (for_loop_succeeds s initial Hno) as [l ->]; [done|].
  by eexists.
Qed.

Lemma parse_succeeds_without_empty_value_witness :
  ∃ d, parse_icy_metadata (str "a==1;;b") = Ok d.
Proof.
  apply parse_succeeds_without_empty_value.
  intros p rest H. vm_compute in H.
  do 7 (destruct p as [|? p]; [discriminate|]; injection H as _ H).
  by destruct p.
Defined.

(** ** The codec on whole blocks *)

Lemma encoding_decoding_table b c :
  decoding_table b = Some c → encoding_table c = Some b.
Proof. destruct b; vm_compute; intros [= <-]; reflexivity. Qed.

Lemma decoding_table_plain b :
  (Byte.to_N b < 0x80 ∨ 0xA0 ≤ Byte.to_N b)%N →
  decoding_table b = Some (Byte.to_N b).
Proof.
  intros H. unfold decoding_table; simpl.
  destruct (N.ltb_spec (Byte.to_N b) 0x80); [done|].
  destruct (N.leb_spec 0xA0 (Byte.to_N b)); [done|]. lia.
Qed.

Lemma decoding_table_nul b : decoding_table b = Some 0%N → b = x00.
Proof. intros H. apply encoding_decoding_table in H. by injection H. Qed.

(** X5: on bytes outside 0x80-0x9F the codec is the identity: a block
    made of such bytes only (all of ASCII among them) decodes, without an
    exception, to the code points with the numbers of its bytes. *)
Theorem decode_plain_bytes (data : pybytes) :
  Forall (λ b, (Byte.to_N b < 0x80 ∨ 0xA0 ≤ Byte.to_N b)%N) data →
  decode data = Ok (map Byte.to_N data).
Proof.
  induction data as [|b data IH]; intros Hdata; [reflexivity|].
  apply Forall_cons in Hdata as [Hb Hdata]. simpl.
  by rewrite (decoding_table_plain b Hb), (IH Hdata).
Qed.

Lemma decode_plain_bytes_witness :
  decode (bytes_lit "a='x';") = Ok (map Byte.to_N (bytes_lit "a='x';")).
Proof.
  apply decode_plain_bytes.
  repeat (apply Forall_cons; split; [left; vm_compute; reflexivity|]).
  apply Forall_nil_2.
Defined.

(** X6: decoding loses nothing: it gives one code point for each byte, and
    two byte strings that decode to the same text are the same. *)
Theorem decode_injective (data1 data2 : pybytes) (text : pystr) :
  decode data1 = Ok text → decode data2 = Ok text →
  length text = length data1 ∧ data1 = data2.
Proof.
  revert data2 text. induction data1 as [|b1 data1 IH]; intros data2 text; simpl.
  - intros [= <-]. destruct data2 as [|b2 data2]; simpl; [done|].
    destruct (decoding_table b2); [|done]. by destruct (decode data2).
  - destruct (decoding_table b1) as [c1|] eqn:Hb1; [|done].
    destruct (decode data1) as [text1|] eqn:Hd1; simpl; [|done].
    intros [= <-]. destruct data2 as [|b2 data2]; simpl; [done|].
    destruct (decoding_table b2) as [c2|] eqn:Hb2; [|done].
    destruct (decode data2) as [text2|] eqn:Hd2; simpl; [|done].
    intros [= -> ->].
    destruct (IH data2 text1 eq_refl Hd2) as [Hlen ->].
    apply encoding_decoding_table in Hb1, Hb2.
    rewrite Hb1 in Hb2. injection Hb2 as ->. by rewrite Hlen.
Qed.

Lemma decode_injective_witness :
  length (map Byte.to_N (bytes_lit "ab")) = length (bytes_lit "ab")
  ∧ bytes_lit "ab" = bytes_lit "ab".
Proof.
  apply (decode_injective (bytes_lit "ab") (bytes_lit "ab")); reflexivity.
Defined.

Lemma decode_replace_nul_no_nul data text :
  decode (replace_nul data) = Ok text → Forall (λ c, c ≠ 0%N) text.
Proof.
  revert text. induction data as [|b data IH]; intros text; simpl.
  - by intros [= <-].
  - destruct (Byte.eqb b x00) eqn:Hb; simpl; [apply IH|].
    destruct (decoding_table b) as [c|] eqn:Hc; [|done].
    destruct (decode (replace_nul data)) as [text'|]; simpl; [|done].
    intros [= <-]. constructor; [|by apply IH].
    intros ->. apply decoding_table_nul in Hc as ->. done.
Qed.

Lemma decoded_block_inv parse block d :
  decoded_block parse block = Ok (Some d) →
  ∃ text, decode (replace_nul block) = Ok text ∧ parse text = Ok d.
Proof.
  unfold decoded_block.
  destruct (decode (replace_nul block)) as [text|]; simpl; [|done].
  destruct (parse text) as [d'|] eqn:Hp; simpl; [|done].
  intros [= <-]. by exists text.
Qed.

(** What a cycle returns is what [decoded_block] makes of some bytes. *)
Lemma get_metadata_once_block parse self d self' :
  get_metadata_once_with parse self = (Ok (Some d), self') →
  ∃ block, decoded_block parse block = Ok (Some d).
Proof.
  destruct self as [[s|] interval]; [|done].
  rewrite get_metadata_once_open.
  destruct (read interval s) as [[audio|e1] s1]; [|done].
  destruct (read (Some 1) s1) as [[length_byte|e2] s2]; [|done]. cbn zeta.
  destruct (0 <? _); [|done].
  destruct (read _ s2) as [[block|e3] s3]; [|done].
  intros [= H _]. by exists block.
Qed.

(** X7: no tag and no value that [get_metadata_once] returns holds the
    NUL character. *)
Theorem no_nul_in_metadata (self self' : IcyLister2) (d : pydict) (k v : pystr) :
  get_metadata_once self = (Ok (Some d), self') → d !! k = Some v →
  (0%N ∉ k) ∧ (0%N ∉ v).
Proof.
  intros Hc Hk. apply get_metadata_once_block in Hc as [block Hb].
  apply decoded_block_inv in Hb as (text & Ht & Hp).
  apply decode_replace_nul_no_nul in Ht.
  pose proof (parse_icy_metadata_inv (λ c, c ≠ 0%N) (λ c, c ≠ 0%N) text d) as H.
  destruct (H (Forall_impl _ _ _ Ht (λ c Hc, conj (λ _, Hc) (λ _, Hc))) Hp k v Hk)
    as [Hk0 Hv0].
  rewrite Forall_forall in Hk0, Hv0.
  split; intros Hin; [by apply (Hk0 _ Hin) | by apply (Hv0 _ Hin)].
Qed.

Lemma no_nul_in_metadata_witness : (0%N ∉ str "a") ∧ (0%N ∉ str "x").
Proof.
  apply (no_nul_in_metadata
           (reader (bytes_lit "12345678" ++ x01 :: bytes_lit "a='x';" ++ repeat x00 10) [] 8)
           (reader [] [Some 8; Some 1; Some 16] 8)
           {[ str "a" := str "x" ]}); reflexivity.
Defined.

(** X8: where the NULs stand in a block does not matter: two bodies that
    differ only in a block, by the place of its NULs, give the same outcome
    and leave the reader in the same state. *)
Theorem nul_placement_irrelevant parse audio b block1 block2 rest trace interval :
  Z.of_nat (length audio) = interval →
  b ≠ x00 →
  Z.of_nat (length block1) = Z.of_N (Byte.to_N b) * 16 →
  Z.of_nat (length block2) = Z.of_N (Byte.to_N b) * 16 →
  replace_nul block1 = replace_nul block2 →
  get_metadata_once_with parse (reader (audio ++ b :: block1 ++ rest) trace interval)
  = get_metadata_once_with parse (reader (audio ++ b :: block2 ++ rest) trace interval).
Proof.
  intros Ha Hb H1 H2 Heq.
  rewrite !cycle_block by done. unfold decoded_block. by rewrite Heq.
Qed.

Lemma nul_placement_irrelevant_witness :
  get_metadata_once
    (reader (bytes_lit "mp3!" ++ x01 :: (bytes_lit "t='s';" ++ repeat x00 10) ++ []) [] 4)
  = get_metadata_once
      (reader (bytes_lit "mp3!" ++ x01 :: (repeat x00 10 ++ bytes_lit "t='s';") ++ []) [] 4).
Proof.
  apply (nul_placement_irrelevant parse_icy_metadata (bytes_lit "mp3!") x01);
    [reflexivity | discriminate | reflexivity | reflexivity | reflexivity].
Defined.

(** ** Cycles one after the other *)

Section PollingFacts.

Variable parse : pystr → result pydict.

Implicit Types (data audio block rest : pybytes) (trace : list (option Z)).

(** A cycle once the response has given up its file: nothing is read. *)
Lemma cycle_ended trace interval :
  get_metadata_once_with parse (ended_reader trace interval)
  = (Ok None, ended_reader (trace ++ [Some interval; Some 1]) interval).
Proof.
  unfold ended_reader, reader_at. rewrite get_metadata_once_open, !read_ended.
  cbn [int_from_bytes fold_left Z.mul Z.ltb Z.compare].
  by rewrite <- app_assoc.
Qed.

(** A cycle whose audio read takes the whole body. *)
Lemma cycle_swallows data trace interval :
  Z.of_nat (length data) ≤ interval ∨ interval = -1 →
  get_metadata_once_with parse (reader data trace interval)
  = (Ok None, ended_reader (trace ++ [Some interval; Some 1]) interval).
Proof.
  intros Hd. unfold reader, ended_reader, reader_at. rewrite get_metadata_once_open.
  rewrite (read_all data _ interval Hd), read_one_at_end.
  cbn [int_from_bytes fold_left Z.mul Z.ltb Z.compare].
  by rewrite <- app_assoc.
Qed.

(** A cycle whose audio read asks for an amount below -1. *)
Lemma cycle_rejected data trace interval :
  interval < -1 →
  get_metadata_once_with parse (reader data trace interval)
  = (Raise ValueError, reader data (trace ++ [Some interval]) interval).
Proof.
  intros Hneg. unfold reader, reader_at. rewrite get_metadata_once_open.
  unfold read; simpl. by destruct (Z.ltb_spec interval (-1)); [|lia].
Qed.

(** Every read adds its request to the trace and leaves a suffix of the
    body. *)
Lemma read_state amt (s : stream) :
  requests (read amt s).2 = requests s ++ [amt]
  ∧ ∃ n, pending (read amt s).2 = drop n (pending s).
Proof.
  unfold read. destruct (fp_open s); simpl.
  - destruct amt as [a|]; simpl.
    + destruct (a <? -1); simpl; [by split; [|exists 0%nat]|]. split; [done|]. by eexists.
    + split; [done|]. exists (length (pending s)). by rewrite drop_all.
  - by split; [|exists 0%nat].
Qed.

(** A read for an amount that is not negative raises nothing. *)
Lemma read_nonneg (a : Z) (s : stream) :
  0 ≤ a → ∃ data, (read (Some a) s).1 = Ok data ∧ (length data ≤ Z.to_nat a)%nat.
Proof.
  intros Ha. unfold read. destruct (fp_open s); simpl.
  - destruct (Z.ltb_spec a (-1)); [lia|]. destruct (Z.eqb_spec a (-1)); [lia|].
    simpl. eexists. split; [done|]. rewrite length_take. lia.
  - exists []. split; [done|]. simpl. lia.
Qed.

Lemma int_from_bytes_short data :
  (length data ≤ 1)%nat → 0 ≤ int_from_bytes data ≤ 255.
Proof.
  destruct data as [|b [|b' data]]; simpl; intros Hlen.
  - unfold int_from_bytes; simpl; lia.
  - rewrite int_from_bytes_one. pose proof (Byte.to_N_bounded b). lia.
  - lia.
Qed.

End PollingFacts.

Lemma sentinels_sentinel_cycles audios : ∀ rest trace interval,
  Forall (λ audio, Z.of_nat (length audio) = interval) audios →
  sentinels (length audios) (reader (sentinel_cycles audios ++ rest) trace interval)
  = Some (reader rest (trace ++ sentinel_requests (length audios) interval) interval).
Proof.
  induction audios as [|audio audios IH]; intros rest trace interval Hall.
  - simpl. unfold sentinel_requests; simpl. by rewrite app_nil_r.
  - apply Forall_cons in Hall as [Ha Hall].
    unfold sentinel_cycles; simpl. fold (sentinel_cycles audios).
    rewrite <- !app_assoc. simpl.
    unfold get_metadata_once. rewrite (cycle_zero _ _ _ _ _ Ha).
    rewrite (IH _ _ _ Hall). unfold sentinel_requests; simpl.
    by rewrite <- app_assoc.
Qed.

Lemma decoded_block_not_None parse block : decoded_block parse block ≠ Ok None.
Proof.
  unfold decoded_block. destruct (decode _) as [text|]; simpl; [|done].
  by destruct (parse text).
Qed.

(** X9: the byte positions add up over cycles.  On a body that starts with
    any number of cycles without metadata (an interval of audio and a zero
    length byte each) followed by a cycle with a block, [get_next_metadata]
    returns what that block decodes and parses to - its dict, or its
    exception - as soon as it is given that many turns plus one, and leaves
    the stream exactly behind the block. *)
Theorem polling_skips_sentinel_cycles audios audio b block rest trace interval extra :
  Forall (λ a, Z.of_nat (length a) = interval) audios →
  Z.of_nat (length audio) = interval →
  b ≠ x00 →
  Z.of_nat (length block) = Z.of_N (Byte.to_N b) * 16 →
  let self := reader (sentinel_cycles audios ++ audio ++ b :: block ++ rest)
                trace interval in
  let self' := reader rest
                 (trace ++ sentinel_requests (length audios) interval
                    ++ [Some interval; Some 1; Some (Z.of_N (Byte.to_N b) * 16)])
                 interval in
  (∀ d, decoded_block parse_icy_metadata block = Ok (Some d) →
     get_next_metadata (length audios + S extra) self = Some (Ok d, self'))
  ∧ (∀ e, decoded_block parse_icy_metadata block = Raise e →
       get_next_metadata (length audios + S extra) self = Some (Raise e, self')).
Proof.
  intros Hall Ha Hb Hblock self self'.
  assert (get_next_metadata (length audios + S extra) self
          = match decoded_block parse_icy_metadata block with
            | Ok (Some d) => Some (Ok d, self')
            | Ok None => None
            | Raise e => Some (Raise e, self')
            end) as ->.
  { unfold self, self'.
    rewrite (get_next_metadata_sentinels _ _ _ _
               (sentinels_sentinel_cycles audios _ trace interval Hall)).
    unfold get_next_metadata; simpl.
    rewrite (cycle_block _ _ _ _ _ _ _ Ha Hb Hblock).
    rewrite <- !app_assoc.
    pose proof (decoded_block_not_None parse_icy_metadata block).
    by destruct (decoded_block parse_icy_metadata block) as [[d|]|e]. }
  split; [by intros d -> | by intros e ->].
Qed.

Lemma polling_skips_sentinel_cycles_witness :
  get_next_metadata 3
    (reader (sentinel_cycles [bytes_lit "mp3!"; bytes_lit "more"]
             ++ bytes_lit "last" ++ x01 :: (bytes_lit "t='s';" ++ repeat x00 10)
             ++ bytes_lit "next") [] 4)
  = Some (Ok {[ str "t" := str "s" ]},
          reader (bytes_lit "next")
            [Some 4; Some 1; Some 4; Some 1; Some 4; Some 1; Some 16] 4).
Proof.
  destruct (polling_skips_sentinel_cycles [bytes_lit "mp3!"; bytes_lit "more"]
              (bytes_lit "last") x01 (bytes_lit "t='s';" ++ repeat x00 10)
              (bytes_lit "next") [] 4 0%nat) as [H _].
  - by repeat constructor.
  - reflexivity.
  - discriminate.
  - reflexivity.
  - apply H. reflexivity.
Defined.

Lemma get_next_metadata_ended fuel : ∀ trace interval,
  get_next_metadata fuel (ended_reader trace interval) = None.
Proof.
  induction fuel as [|fuel IH]; intros trace interval; [reflexivity|].
  unfold get_next_metadata; cbn [get_next_metadata_with].
  rewrite cycle_ended. apply IH.
Qed.

Lemma get_next_metadata_swallowed fuel data trace interval :
  Z.of_nat (length data) ≤ interval ∨ interval = -1 →
  get_next_metadata fuel (reader data trace interval) = None.
Proof.
  intros Hd. destruct fuel as [|fuel]; [reflexivity|].
  unfold get_next_metadata; cbn [get_next_metadata_with].
  rewrite (cycle_swallows _ _ _ _ Hd). apply get_next_metadata_ended.
Qed.

(** X10: at the end of the body the polling loop spins.  When what is left
    of the body is no longer than the interval, [get_next_metadata] neither
    returns nor raises within any number of turns. *)
Theorem polling_spins_at_end_of_body fuel data trace interval :
  Z.of_nat (length data) ≤ interval →
  get_next_metadata fuel (reader data trace interval) = None.
Proof. intros Hd. apply get_next_metadata_swallowed. by left. Qed.

Lemma polling_spins_at_end_of_body_witness :
  get_next_metadata 1000 (reader (bytes_lit "abc") [] 8) = None.
Proof. apply polling_spins_at_end_of_body. simpl. lia. Defined.

(** X11: a negative interval, which the constructor accepts, never yields
    metadata.  With the interval -1 the audio read takes the whole body:
    the first cycle returns [None] with nothing left to read, whatever the
    body holds, and [get_next_metadata] then never returns.  With an
    interval below -1 the audio read is refused: every cycle raises
    [ValueError] before a byte is read, and so does [get_next_metadata] on
    its first turn. *)
Theorem negative_interval_yields_nothing fuel data trace interval :
  interval < -1 →
  (get_metadata_once (reader data trace (-1))
   = (Ok None, ended_reader (trace ++ [Some (-1); Some 1]) (-1))
   ∧ get_next_metadata fuel (reader data trace (-1)) = None)
  ∧ (get_metadata_once (reader data trace interval)
     = (Raise ValueError, reader data (trace ++ [Some interval]) interval)
     ∧ get_next_metadata (S fuel) (reader data trace interval)
       = Some (Raise ValueError, reader data (trace ++ [Some interval]) interval)).
Proof.
  intros Hneg. split; split.
  - apply cycle_swallows. by right.
  - apply get_next_metadata_swallowed. by right.
  - by apply cycle_rejected.
  - unfold get_next_metadata; cbn [get_next_metadata_with].
    by rewrite cycle_rejected.
Qed.

Lemma negative_interval_yields_nothing_witness :
  get_next_metadata 5
    (reader (bytes_lit "12345678" ++ x01 :: bytes_lit "a='x';" ++ repeat x00 10) [] (-1))
  = None
  ∧ get_metadata_once
      (reader (bytes_lit "12345678" ++ x01 :: bytes_lit "a='x';" ++ repeat x00 10) [] (-16))
    = (Raise ValueError,
       reader (bytes_lit "12345678" ++ x01 :: bytes_lit "a='x';" ++ repeat x00 10)
         [Some (-16)] (-16)).
Proof.
  destruct (negative_interval_yields_nothing 5
              (bytes_lit "12345678" ++ x01 :: bytes_lit "a='x';" ++ repeat x00 10)
              [] (-16)) as [[_ H1] [H2 _]]; [lia|].
  split; [exact H1 | exact H2].
Defined.

(** X12: a cycle on an open reader, whatever its outcome, leaves the
    reader open with the interval it had, and leaves of the body a suffix
    of what was there: it never closes the stream, never changes the
    interval and never goes back in the body. *)
Theorem cycle_keeps_reader_open parse (s : stream) (amt : option Z) out self' :
  get_metadata_once_with parse (Reader (Some s) amt) = (out, self') →
  ∃ s' n, self' = Reader (Some s') amt ∧ pending s' = drop n (pending s).
Proof.
  rewrite get_metadata_once_open.
  destruct (read_state amt s) as [_ [n1 H1]].
  destruct (read amt s) as [[audio|e1] s1]; simpl in H1;
    [|intros [= _ <-]; by eexists _, n1].
  destruct (read_state (Some 1) s1) as [_ [n2 H2]].
  destruct (read (Some 1) s1) as [[length_byte|e2] s2]; simpl in H2;
    [|intros [= _ <-]; eexists _, (n1 + n2)%nat; split; [done|];
      by rewrite H2, H1, drop_drop].
  cbn zeta. destruct (0 <? _).
  - destruct (read_state (Some (int_from_bytes length_byte * 16)) s2) as [_ [n3 H3]].
    destruct (read _ s2) as [[block|e3] s3]; simpl in H3;
      intros [= _ <-]; eexists _, (n1 + n2 + n3)%nat; (split; [done|]);
      rewrite H3, H2, H1, !drop_drop; f_equal; lia.
  - intros [= _ <-]. eexists _, (n1 + n2)%nat. split; [done|].
    by rewrite H2, H1, drop_drop.
Qed.

Lemma cycle_keeps_reader_open_witness :
  ∃ s' n, ended_reader [Some 8; Some 1] 8 = Reader (Some s') (Some 8)
          ∧ pending s' = drop n (bytes_lit "abc").
Proof.
  apply (cycle_keeps_reader_open parse_icy_metadata (Stream (bytes_lit "abc") [] true)
           (Some 8) (Ok None)).
  reflexivity.
Defined.

(** X13: the reads of a cycle.  A cycle on an open reader whose interval is
    not negative asks for the interval and for one byte; it asks for
    nothing more when it returns [None], and otherwise for one block, whose
    length is a multiple of 16 from 16 to 4080. *)
Theorem cycle_requests parse (s : stream) (interval : Z) out (s' : stream) amt' :
  0 ≤ interval →
  get_metadata_once_with parse (Reader (Some s) (Some interval))
  = (out, Reader (Some s') amt') →
  (out = Ok None ∧ requests s' = requests s ++ [Some interval; Some 1])
  ∨ (out ≠ Ok None
     ∧ ∃ len, requests s' = requests s ++ [Some interval; Some 1; Some len]
              ∧ 16 ≤ len ≤ 4080 ∧ len mod 16 = 0).
Proof.
  intros Hpos. rewrite get_metadata_once_open.
  destruct (read_state (Some interval) s) as [R1 _].
  destruct (read_nonneg interval s Hpos) as (audio & Ha & _).
  destruct (read (Some interval) s) as [r1 s1]; simpl in R1, Ha. subst r1.
  destruct (read_state (Some 1) s1) as [R2 _].
  destruct (read_nonneg 1 s1) as (length_byte & Hl & Hlen); [lia|].
  destruct (read (Some 1) s1) as [r2 s2]; simpl in R2, Hl. subst r2.
  pose proof (int_from_bytes_short length_byte Hlen) as Hb.
  cbn zeta. set (m := int_from_bytes length_byte) in *.
  destruct (Z.ltb_spec 0 (m * 16)) as [Hm|Hm].
  - destruct (read_state (Some (m * 16)) s2) as [R3 _].
    destruct (read_nonneg (m * 16) s2) as (block & Hblock & _); [lia|].
    destruct (read (Some (m * 16)) s2) as [r3 s3]; simpl in R3, Hblock. subst r3.
    intros [= <- <- _]. right. split; [apply decoded_block_not_None|].
    exists (m * 16). rewrite R3, R2, R1, <- !app_assoc. simpl.
    split; [done|]. split; [lia|]. apply Z.mod_mul. lia.
  - intros [= <- <- _]. left. split; [done|].
    by rewrite R2, R1, <- !app_assoc.
Qed.

Lemma cycle_requests_witness :
  (Ok (Some ({[ str "a" := str "x" ]} : gmap (list N) (list N))) = Ok None
   ∧ [Some 8; Some 1; Some 16] = [] ++ [Some 8; Some 1])
  ∨ (Ok (Some ({[ str "a" := str "x" ]} : gmap (list N) (list N))) ≠ Ok None
     ∧ ∃ len, [Some 8; Some 1; Some 16] = [] ++ [Some 8; Some 1; Some len]
              ∧ 16 ≤ len ≤ 4080 ∧ len mod 16 = 0).
Proof.
  apply (cycle_requests parse_icy_metadata
           (Stream (bytes_lit "12345678" ++ x01 :: bytes_lit "a='x';" ++ repeat x00 10)
              [] true)
           8 _ (Stream [] [Some 8; Some 1; Some 16] true) (Some 8)).
  - lia.
  - reflexivity.
Defined.

(** ** Construction and close *)

(** X14: [close] succeeds on every reader that [__init__] builds and
    leaves it with neither stream nor interval; a second [close] raises
    (the [AttributeError] of [self._stream] being [None]) and changes
    nothing. *)
Theorem close_once (resp : response) (self : IcyLister2) :
  __init__ resp = Ok self →
  close self = (Ok (), Reader None None)
  ∧ close (Reader None None) = (Raise AttributeError, Reader None None).
Proof.
  unfold __init__.
  destruct (for_headers None (getheaders resp)) as [[n|]|e]; simpl; try done.
  by intros [= <-].
Qed.

Lemma close_once_witness :
  close (reader [] [] 8) = (Ok (), Reader None None)
  ∧ close (Reader None None) = (Raise AttributeError, Reader None None).
Proof.
  apply (close_once (Response [("icy-metaint", "8")]%string [])).
  reflexivity.
Defined.

Lemma lower_char_ascii a c :
  (N_of_ascii c < 128)%N → lower_char a = c ↔ ascii_fold_char a = c.
Proof.
  intros Hc.
  destruct a as [[] [] [] [] [] [] [] []];
    vm_compute (lower_char _); vm_compute (ascii_fold_char _);
    (split; intros <-; (reflexivity || (vm_compute in Hc; discriminate))).
Qed.

Lemma lower_ascii t : ∀ h,
  Forall (λ c, (N_of_ascii c < 128)%N) (list_ascii_of_string t) →
  lower h = t ↔ ascii_fold h = t.
Proof.
  induction t as [|c t IH]; intros h Ht; destruct h as [|a h]; simpl; try done.
  simpl in Ht. apply Forall_cons in Ht as [Hc Ht].
  split; intros [= Ha Hh]; f_equal;
    (by apply (lower_char_ascii a c Hc)) || (by apply (IH h Ht)).
Qed.

(** X15: a header is taken for the interval header exactly when its name is
    [icy-metaint] up to the case of the letters A-Z; the accented capitals
    that [lower] folds as well never make a name match. *)
Theorem is_metaint_ascii_case (header : string) :
  is_metaint header = true ↔ ascii_fold header = "icy-metaint"%string.
Proof.
  unfold is_metaint. rewrite String.eqb_eq. apply lower_ascii.
  repeat (apply Forall_cons; split; [vm_compute; reflexivity|]).
  apply Forall_nil_2.
Qed.

(** ** One turn of [_pretty_print] with a field filter *)

Lemma unpack_pair_length field :
  length field ≠ 2%nat → unpack_pair field = Raise ValueError.
Proof. destruct field as [|a [|b [|c field]]]; simpl; done. Qed.

Lemma filter_loop_raises wanted fields : ∀ selected,
  Exists (λ field, length field ≠ 2%nat) fields →
  filter_loop wanted selected fields = Raise ValueError.
Proof.
  induction fields as [|field fields IH]; intros selected Hex.
  - by apply Exists_nil in Hex.
  - simpl. destruct (unpack_pair field) as [[key value]|e] eqn:Hu; simpl.
    + apply IH. apply Exists_cons in Hex as [Hlen|Hex]; [|done].
      by rewrite unpack_pair_length in Hu.
    + by destruct field as [|a [|b [|c field]]]; simplify_eq/=.
Qed.

Lemma filter_loop_selected wanted fields : ∀ selected selected',
  filter_loop wanted selected fields = Ok selected' →
  ∀ key value, selected' !! key = Some value →
    selected !! key = Some value
    ∨ (key ∈ wanted ∧ key ++ value ∈ fields
       ∧ length key = 1%nat ∧ length value = 1%nat).
Proof.
  induction fields as [|field fields IH]; intros selected selected'; simpl.
  - intros [= <-] key value Hk. by left.
  - destruct field as [|a [|b [|c field]]]; simpl; try done.
    intros Hloop key value Hk.
    destruct (IH _ _ Hloop key value Hk) as [Hold|(Hw & Hin & Hlk & Hlv)].
    + case_bool_decide as Hwanted.
      * destruct (decide (key = [a])) as [->|Hne].
        -- rewrite lookup_insert_eq in Hold. injection Hold as <-.
           right. repeat split; [done | apply list_elem_of_here].
        -- rewrite lookup_insert_ne in Hold by done. by left.
      * by left.
    + right. repeat split; try done. by apply list_elem_of_further.
Qed.

(** X16: with a field filter that is not empty, a turn of [_pretty_print]
    unpacks each tag name into [key, value] and so raises [ValueError] as
    soon as the metadata holds a tag whose name is not exactly two
    characters long; no dict reaches the printer. *)
Theorem field_filter_raises (metadata : gmap (list N) (list N)) fields
    with_timestamp wanted now (k v : list N) :
  (∀ field, field ∈ fields ↔ is_Some (metadata !! field)) →
  wanted ≠ [] →
  metadata !! k = Some v →
  length k ≠ 2%nat →
  pretty_print_turn metadata fields with_timestamp (Some wanted) now
  = Raise ValueError.
Proof.
  intros Hfields Hwanted Hk Hlen. unfold pretty_print_turn.
  destruct wanted as [|w wanted]; [done|]. simpl.
  rewrite filter_loop_raises; [done|].
  apply Exists_exists. exists k. split; [|done].
  apply Hfields. by eexists.
Qed.

Lemma field_filter_raises_witness :
  pretty_print_turn {[ str "StreamTitle" := str "Artist - Song" ]}
    [str "StreamTitle"] true (Some [str "StreamTitle"]) (str "2016-11-26 12:00:00")
  = Raise ValueError.
Proof.
  apply (field_filter_raises _ _ _ _ _ (str "StreamTitle") (str "Artist - Song")).
  - intros field. rewrite list_elem_of_singleton. split.
    + intros ->. by eexists.
    + intros [v Hv]. by apply lookup_singleton_Some in Hv as [<- _].
  - done.
  - reflexivity.
  - simpl. lia.
Defined.

(** X17: when a turn with a field filter that is not empty does hand a
    dict to the printer, that dict is built from the tag names alone: apart
    from the time stamp, each entry maps the first character of a
    two-character tag name, which the filter lists, to the second character
    of that name.  The values of the metadata are never looked at. *)
Theorem field_filter_selects_names (metadata : gmap (list N) (list N)) fields
    with_timestamp wanted now printed (key value : list N) :
  wanted ≠ [] →
  pretty_print_turn metadata fields with_timestamp (Some wanted) now = Ok printed →
  printed !! key = Some value →
  (with_timestamp = true ∧ key = str "_timestamp" ∧ value = now)
  ∨ (key ∈ wanted ∧ key ++ value ∈ fields
     ∧ length key = 1%nat ∧ length value = 1%nat).
Proof.
  intros Hwanted. unfold pretty_print_turn.
  destruct wanted as [|w wanted]; [done|]. simpl.
  destruct (filter_loop (w :: wanted) ∅ fields) as [selected|e] eqn:Hloop;
    simpl; [|done].
  intros [= <-] Hk.
  assert (selected !! key = Some value →
          key ∈ w :: wanted ∧ key ++ value ∈ fields
          ∧ length key = 1%nat ∧ length value = 1%nat) as Hsel.
  { intros Hs. by destruct (filter_loop_selected _ _ _ _ Hloop key value Hs). }
  destruct with_timestamp; [|by right; apply Hsel].
  destruct (decide (key = str "_timestamp")) as [->|Hne].
  - rewrite lookup_insert_eq in Hk. injection Hk as <-. by left.
  - rewrite lookup_insert_ne in Hk by done. right. by apply Hsel.
Qed.

Lemma field_filter_selects_names_witness :
  (false = true ∧ str "t" = str "_timestamp" ∧ str "1" = str "now")
  ∨ (str "t" ∈ [str "t"] ∧ str "t" ++ str "1" ∈ [str "t1"; str "u2"]
     ∧ length (str "t") = 1%nat ∧ length (str "1") = 1%nat).
Proof.
  apply (field_filter_selects_names
           (<[ str "u2" := str "b" ]> {[ str "t1" := str "a" ]})
           [str "t1"; str "u2"] false [str "t"] (str "now")
           {[ str "t" := str "1" ]}).
  - done.
  - reflexivity.
  - reflexivity.
Defined.

(** ** More on the polling loop, the constructor and the scanner *)

(** X18: the polling loop hands on the first exception.  It ends in the
    exception [e] exactly when some number of cycles returned [None] and
    the next one raised [e]; the reader is left as that cycle left it. *)
Theorem get_next_metadata_first_exception fuel self e self' :
  get_next_metadata fuel self = Some (Raise e, self')
  ↔ ∃ k self_k, (k < fuel)%nat
      ∧ sentinels k self = Some self_k
      ∧ get_metadata_once self_k = (Raise e, self').
Proof.
  split.
  - revert self. induction fuel as [|fuel IH]; intros self; [done|].
    unfold get_next_metadata; simpl. fold get_metadata_once.
    destruct (get_metadata_once self) as [[[d1|]|e1] self1] eqn:Hc.
    + done.
    + intros H. apply IH in H as (k & self_k & Hk & Hs & Hd).
      exists (S k), self_k. split; [lia|]. split; [|done].
      simpl. by rewrite Hc.
    + intros [= -> ->]. exists 0%nat, self. split; [lia | by split].
  - intros (k & self_k & Hk & Hs & Hd).
    replace fuel with (k + S (fuel - S k))%nat by lia.
    rewrite (get_next_metadata_sentinels k _ self self_k Hs).
    unfold get_next_metadata; simpl. fold get_metadata_once. by rewrite Hd.
Qed.

Lemma mapM_py_int_raises values e : mapM py_int values = Raise e → e = ValueError.
Proof.
  induction values as [|value values IH]; simpl; [done|].
  destruct (py_int value) as [n|e'] eqn:Hv; simpl.
  - destruct (mapM py_int values) as [ns|e']; simpl; [done|].
    intros [= <-]. by apply IH.
  - intros [= <-]. by apply py_int_raises in Hv.
Qed.

Lemma metaint_values_nil headers :
  metaint_values headers = [] ↔ Forall (λ hv, is_metaint hv.1 = false) headers.
Proof.
  induction headers as [|[header value] headers IH]; [by split|].
  rewrite metaint_values_cons, Forall_cons. simpl.
  destruct (is_metaint header); [by split; [|intros [? _]] | by rewrite IH; split; [|intros [_ ?]]].
Qed.

(** X19: construction raises [RuntimeError] exactly when no header of the
    response is an interval header; with such a header present it can only
    raise the [ValueError] of [int]. *)
Theorem init_raises (resp : response) :
  (__init__ resp = Raise RuntimeError
   ↔ Forall (λ hv, is_metaint hv.1 = false) (getheaders resp))
  ∧ (∀ e, __init__ resp = Raise e → e = RuntimeError ∨ e = ValueError).
Proof.
  destruct resp as [headers body]. rewrite init_last. simpl.
  rewrite <- metaint_values_nil.
  destruct (mapM py_int (metaint_values headers)) as [ns|e] eqn:Hm; simpl.
  - destruct (metaint_values headers) as [|value values] eqn:Hv.
    + simpl in Hm. injection Hm as <-. simpl. split; [done|]. intros e [= <-]. by left.
    + assert (last ns ≠ None) as Hlast.
      { simpl in Hm. destruct (py_int value); simpl in Hm; [|done].
        destruct (mapM py_int values); simpl in Hm; [|done].
        injection Hm as <-. by rewrite last_cons; destruct (last _). }
      destruct (last ns); [|done]. split; [by split|]. by intros e.
  - pose proof (mapM_py_int_raises _ _ Hm) as ->. split.
    + split; [done|]. intros Hnil. by rewrite Hnil in Hm.
    + intros e [= <-]. by right.
Qed.

(** The dict built so far only sits under what the rest of the text
    stores. *)
Lemma for_loop_from_empty s : ∀ md tag v rt,
  for_loop (Locals md tag v rt) s
  = l ← for_loop (Locals ∅ tag v rt) s;
    mret (Locals (metadata l ∪ md) (current_tag l) (current_value l) (reading_tag l)).
Proof.
  induction s as [|c s IH]; intros md tag v rt; simpl.
  - by rewrite (left_id_L ∅ (∪)).
  - unfold loop_body; simpl. destruct rt.
    + destruct (c =? chr "=")%N; simpl; apply IH.
    + destruct (c =? chr ";")%N; simpl; [|apply IH].
      destruct (quoted v) as [q|e]; simpl; [|done].
      rewrite IH. rewrite (IH (<[tag := _]> ∅)).
      destruct (for_loop (Locals ∅ [] [] true) s) as [l|e]; simpl; [|done].
      f_equal. f_equal.
      by rewrite <- (assoc_L (∪)), <- insert_union_l, (left_id_L ∅ (∪)).
Qed.

(** X20: text behind a run of complete pairs is parsed as if it stood
    alone, and its entries are laid over those of the pairs: for pairs
    [tag=raw;] with no [=] in a tag and a non-empty raw value without [;],
    parsing the pairs followed by [rest] gives the dict of [rest] united
    with, and taking precedence over, the dict of the pairs (and raises
    exactly when parsing [rest] raises). *)
Theorem parse_after_block (items : list (list N * list N)) (rest : pystr) :
  Forall (λ item, (chr "=" ∉ item.1) ∧ (chr ";" ∉ item.2) ∧ item.2 ≠ []) items →
  parse_icy_metadata (block_text items ++ rest)
  = d_rest ← parse_icy_metadata rest;
    d_items ← parse_icy_metadata (block_text items);
    mret (d_rest ∪ d_items).
Proof.
  intros Hitems. rewrite (parse_block items Hitems).
  unfold parse_icy_metadata, initial.
  rewrite (for_loop_block items ∅ rest Hitems), for_loop_from_empty.
  by destruct (for_loop (Locals ∅ [] [] true) rest) as [l|e].
Qed.

Lemma parse_after_block_witness :
  parse_icy_metadata (block_text [(str "a", str "1"); (str "b", str "2")] ++ str "a=3;c")
  = d_rest ← parse_icy_metadata (str "a=3;c");
    d_items ← parse_icy_metadata (block_text [(str "a", str "1"); (str "b", str "2")]);
    mret (d_rest ∪ d_items).
Proof.
  apply parse_after_block.
  repeat (apply Forall_cons; split;
    [split; [|split; [|done]];
     vm_compute; by repeat (apply not_elem_of_cons; split; [done|]); apply not_elem_of_nil|]).
  apply Forall_nil_2.
Defined.
